(** * VoiceGuard signal processing: a shallow embedding of
      [src/utils/signalProcessing.ts] and of the [AudioProcessor] class.

    Numbers are JavaScript Numbers, that is IEEE-754 binary64 values, modelled
    by Rocq's primitive floats.  A [Float32Array] is a list of floats; a store
    rounds its value to binary32 ([fround]), a store outside the array is
    dropped, and a read outside the array yields [undefined], which becomes
    NaN as soon as arithmetic touches it ([ToNumber]).  The transcendental
    functions of [Math] are implementation-approximated in ECMAScript, so the
    embedding takes them as a parameter ([MathObject]).

    A call returns, throws, or does not finish ([outcome]): the recursion of
    [FFT] and the loops whose counter advances by a field of the class take
    fuel, and the theorems say how much fuel is enough.

    The file has the embedding first (JavaScript values, the functions of
    signalProcessing.ts, the tensor operations, [AudioProcessor]), then the
    vocabulary of the statements and a concrete engine to run the code on,
    then the properties. *)

From Stdlib Require Import ZArith Lia Floats String.
From Stdlib Require FloatLemmas Uint63.
From stdpp Require Import base list.

Set Warnings "-inexact-float,-abstract-large-number".
Local Open Scope nat_scope.

(** ** JavaScript values *)

Module JS.

(** [Math.fround]: round a Number to the nearest binary32 value, ties to
    even, as a store into a [Float32Array] does. *)
Definition fround (x : float) : float :=
  match Prim2SF x with
  | S754_finite s m e => SF2Prim (binary_round 24 128 s m e)
  | _ => x
  end.

(** The Number of an integer (array lengths, loop counters). *)
Definition of_Z (z : Z) : float :=
  SF2Prim (binary_normalize prec emax z 0 false).

Definition of_nat (n : nat) : float := of_Z (Z.of_nat n).

(** [ToNumber] of the result of an indexed read: [undefined] is NaN. *)
Definition ToNumber (v : option float) : float :=
  match v with
  | Some x => x
  | None => nan
  end.

(** [ToInt32], applied by the bitwise operators to both operands. *)
Definition ToInt32 (z : Z) : Z :=
  let m := (z mod 2 ^ 32)%Z in
  if (2 ^ 31 <=? m)%Z then (m - 2 ^ 32)%Z else m.

(** [a & b] on integral Numbers. *)
Definition bitand (a b : Z) : Z := Z.land (ToInt32 a) (ToInt32 b).

(** [Math.max] of two Numbers: NaN if either is NaN, and +0 above -0. *)
Definition Math_max (x y : float) : float :=
  if is_nan x || is_nan y then nan
  else if (x <? y)%float then y
  else if (y <? x)%float then x
  else if is_zero x && negb (get_sign y) then y
  else x.

Definition Math_PI : float := 0x1.921fb54442d18p+1%float.

(** *** Float32Array *)

Abbreviation Float32Array := (list float) (only parsing).

(** [new Float32Array(len)]: [len] zeros. *)
Definition new_Float32Array (len : nat) : Float32Array := replicate len 0%float.

(** [a[i]] *)
Definition get (a : Float32Array) (i : nat) : option float := a !! i.

(** [a[i] = v] *)
Definition set (a : Float32Array) (i : nat) (v : float) : Float32Array :=
  <[i := fround v]> a.

(** Every element of a typed array is a binary32 value. *)
Definition is_f32 (x : float) : Prop := fround x = x.
Definition wf (a : Float32Array) : Prop := Forall is_f32 a.

(** *** Loops and bounds *)

(** [for (let i = lo; i < lo + count; i++) body]. *)
Definition for_range {S : Type} (lo count : nat) (body : nat -> S -> S) (s : S) : S :=
  fold_left (fun s i => body i s) (seq lo count) s.

(** [n / 2] is a Number, an integer only for even [n].  The number of
    integers [i >= 0] with [i < n / 2]: *)
Definition below_half (n : nat) : nat := (n + 1) / 2.

(** ... and [ToIndex (n / 2)], the length [new Float32Array(n / 2)] gets. *)
Definition trunc_half (n : nat) : nat := n / 2.

End JS.

Import JS.

(** The part of [Math] the code calls whose values are implementation-defined. *)
Record MathObject := {
  Math_cos : float -> float;
  Math_sin : float -> float;
  Math_log : float -> float;
  Math_exp : float -> float
}.

(** ** Outcomes of a call *)

Inductive outcome (A : Type) : Type :=
| Return (a : A)           (* normal completion *)
| Throw (message : string) (* [throw new Error(message)] *)
| OutOfFuel.               (* the recursion or loop has not finished within the fuel *)
Arguments Return {A} a.
Arguments Throw {A} message.
Arguments OutOfFuel {A}.

#[global] Instance outcome_bind : MBind outcome := fun A B k m =>
  match m with
  | Return a => k a
  | Throw e => Throw e
  | OutOfFuel => OutOfFuel
  end.

(** ** signalProcessing.ts *)

(** The message of the error [FFT] throws. *)
Definition precondition_error : string := "FFT length must be a power of 2".

Section SignalProcessing.

Context (Math : MathObject).

(** Lines 23-30: the even- and odd-indexed samples. *)
Definition split_step (signal : Float32Array) (i : nat)
    (eo : Float32Array * Float32Array) : Float32Array * Float32Array :=
  (set (fst eo) i (ToNumber (get signal (i * 2))),
   set (snd eo) i (ToNumber (get signal (i * 2 + 1)))).

(** Lines 39-59: one butterfly.  [(k + n / 2) * 2] is [k * 2 + n]. *)
Definition combine_step (n : nat) (evenFFT oddFFT : Float32Array) (k : nat)
    (result : Float32Array) : Float32Array :=
  let theta := ((-2) * Math_PI * of_nat k / of_nat n)%float in
  let re := Math_cos Math theta in
  let im := Math_sin Math theta in
  let oddRe := ToNumber (get oddFFT (k * 2)) in
  let oddIm := ToNumber (get oddFFT (k * 2 + 1)) in
  let tRe := (oddRe * re - oddIm * im)%float in
  let tIm := (oddRe * im + oddIm * re)%float in
  let result := set result (k * 2) (ToNumber (get evenFFT (k * 2)) + tRe)%float in
  let result := set result (k * 2 + 1) (ToNumber (get evenFFT (k * 2 + 1)) + tIm)%float in
  let result := set result (k * 2 + n) (ToNumber (get evenFFT (k * 2)) - tRe)%float in
  let result := set result (k * 2 + n + 1) (ToNumber (get evenFFT (k * 2 + 1)) - tIm)%float in
  result.

(** [FFT], lines 10-62.  [fuel] bounds the depth of the recursion. *)
Fixpoint FFT (fuel : nat) (signal : Float32Array) : outcome Float32Array :=
  match fuel with
  | O => OutOfFuel
  | S fuel =>
    let n := length signal in
    if negb (bitand (Z.of_nat n) (Z.of_nat n - 1) =? 0)%Z then
      Throw precondition_error
    else if n =? 1 then
      Return signal (* [new Float32Array(signal)]: a copy *)
    else
      let '(even, odd) :=
        for_range 0 (below_half n) (split_step signal)
          (new_Float32Array (trunc_half n), new_Float32Array (trunc_half n)) in
      evenFFT ← FFT fuel even;
      oddFFT ← FFT fuel odd;
      Return (for_range 0 (below_half n) (combine_step n evenFFT oddFFT)
                (new_Float32Array (n * 2)))
  end.

(** [powerSpectrum], lines 69-86.  [power[n / 2] = v] stores only when
    [n / 2] is an integer, i.e. for even [n]. *)
Definition powerSpectrum (fuel : nat) (signal : Float32Array) : outcome Float32Array :=
  fft ← FFT fuel signal;
  let n := length signal in
  let power := new_Float32Array (trunc_half n + 1) in
  let power :=
    set power 0 (ToNumber (get fft 0) * ToNumber (get fft 0)
                 + ToNumber (get fft 1) * ToNumber (get fft 1))%float in
  let power :=
    for_range 1 (below_half n - 1)
      (fun i power =>
         set power i (ToNumber (get fft (i * 2)) * ToNumber (get fft (i * 2))
                      + ToNumber (get fft (i * 2 + 1)) * ToNumber (get fft (i * 2 + 1)))%float)
      power in
  let power :=
    if Nat.even n
    then set power (n / 2) (ToNumber (get fft 1) * ToNumber (get fft 1))%float
    else power in
  Return power.

(** [preEmphasis], lines 94-103. *)
Definition preEmphasis (signal : Float32Array) (alpha : float) : Float32Array :=
  let result := new_Float32Array (length signal) in
  let result := set result 0 (ToNumber (get signal 0)) in
  for_range 1 (length signal - 1)
    (fun i result =>
       set result i (ToNumber (get signal i) - alpha * ToNumber (get signal (i - 1)))%float)
    result.

(** Lines 163-167 and 196-200: scale and return the real part. *)
Definition scale_real (n : nat) (result : Float32Array) : Float32Array :=
  for_range 0 n
    (fun i filtered => set filtered i (ToNumber (get result (i * 2)) / of_nat n)%float)
    (new_Float32Array n).

(** [lowPassFilter], lines 144-170. *)
Definition lowPassFilter (fuel : nat) (signal : Float32Array) (cutoffFreq : float)
    : outcome Float32Array :=
  let n := length signal in
  fft ← FFT fuel signal;
  let fft :=
    for_range 0 n
      (fun i fft =>
         let freq := (of_nat i / of_nat n)%float in
         if (cutoffFreq <? freq)%float && (freq <? 1 - cutoffFreq)%float
         then set (set fft (i * 2) 0%float) (i * 2 + 1) 0%float
         else fft)
      fft in
  result ← FFT fuel fft;
  Return (scale_real n result).

(** [highPassFilter], lines 178-203. *)
Definition highPassFilter (fuel : nat) (signal : Float32Array) (cutoffFreq : float)
    : outcome Float32Array :=
  let n := length signal in
  fft ← FFT fuel signal;
  let fft :=
    for_range 0 n
      (fun i fft =>
         let freq := (of_nat i / of_nat n)%float in
         if (freq <? cutoffFreq)%float || (1 - cutoffFreq <? freq)%float
         then set (set fft (i * 2) 0%float) (i * 2 + 1) 0%float
         else fft)
      fft in
  result ← FFT fuel fft;
  Return (scale_real n result).

(** [spectralCentroid], lines 211-223. *)
Definition spectralCentroid (fuel : nat) (signal : Float32Array) (sampleRate : float)
    : outcome float :=
  power ← powerSpectrum fuel signal;
  let sums :=
    for_range 0 (length power)
      (fun i (sums : float * float) =>
         let frequency := (of_nat i * sampleRate / (2 * of_nat (length power)))%float in
         (fst sums + frequency * ToNumber (get power i),
          snd sums + ToNumber (get power i))%float)
      (0, 0)%float in
  let weightedSum := fst sums in
  let totalPower := snd sums in
  Return (if (0 <? totalPower)%float then (weightedSum / totalPower)%float else 0%float).

(** [spectralFlatness], lines 230-253. *)
Definition spectralFlatness (fuel : nat) (signal : Float32Array) : outcome float :=
  power ← powerSpectrum fuel signal;
  let power :=
    for_range 0 (length power)
      (fun i power => set power i (Math_max (ToNumber (get power i)) 1e-10%float))
      power in
  let geometricMean :=
    for_range 0 (length power)
      (fun i geometricMean => (geometricMean + Math_log Math (ToNumber (get power i)))%float)
      0%float in
  let geometricMean := Math_exp Math (geometricMean / of_nat (length power))%float in
  let arithmeticMean :=
    for_range 0 (length power)
      (fun i arithmeticMean => (arithmeticMean + ToNumber (get power i))%float)
      0%float in
  let arithmeticMean := (arithmeticMean / of_nat (length power))%float in
  Return (if (0 <? arithmeticMean)%float
          then (geometricMean / arithmeticMean)%float else 0%float).

End SignalProcessing.

(** [signalEnergy], lines 110-118. *)
Definition signalEnergy (signal : Float32Array) : float :=
  let energy :=
    for_range 0 (length signal)
      (fun i energy => (energy + ToNumber (get signal i) * ToNumber (get signal i))%float)
      0%float in
  (energy / of_nat (length signal))%float.

(** The test of lines 129-130 on [signal[i]] and [signal[i - 1]]. *)
Definition crosses (current previous : float) : bool :=
  ((0 <=? current)%float && (previous <? 0)%float)
  || ((current <? 0)%float && (0 <=? previous)%float).

(** [zeroCrossingRate], lines 125-136.  [signal.length - 1] is -1 for the
    empty signal. *)
Definition zeroCrossingRate (signal : Float32Array) : float :=
  let crossings :=
    for_range 1 (length signal - 1)
      (fun i crossings =>
         if crosses (ToNumber (get signal i)) (ToNumber (get signal (i - 1)))
         then (crossings + 1)%float else crossings)
      0%float in
  (crossings / of_Z (Z.of_nat (length signal) - 1))%float.

(** ** The tensors of [AudioProcessor]

    The class computes with TensorFlow.js tensors.  A 1-D tensor is the list
    of its values and a 2-D tensor the list of its rows.  Which value a kernel
    returns (single precision, on the WebGL backend with 16-bit textures
    forced) is the backend's business: the embedding takes the scalar kernels
    as a parameter and writes out what the operations do to shapes, rows and
    columns.  The operations are written out for the arguments the class
    gives them (slices inside the tensor, a window as long as the rows).  Of
    the library's own argument checks the embedding has those the class can
    run into: [tf.stack] and [tf.concat] of an empty list of tensors, and a
    [reshape] to [[0, -1]]. *)

Abbreviation Tensor1D := (list float) (only parsing).
Abbreviation Tensor2D := (list (list float)) (only parsing).
Definition complex := (float * float)%type.

Record Backend := {
  k_hamming : nat -> nat -> float;       (* [tf.signal.hammingWindow(n)], entry [i] *)
  k_mul : float -> float -> float;
  k_add : float -> float -> float;
  k_div : float -> float -> float;
  k_square : float -> float;
  k_log : float -> float;
  k_cos : float -> float;
  k_abs : complex -> float;              (* modulus of a complex entry *)
  k_dft : list float -> nat -> complex;  (* bin [k] of the transform of a real row *)
  k_dot : list float -> list float -> float  (* a row times a column, in [tf.matMul] *)
}.

Module tf.

(** The messages of the library's assertions. *)
Definition stack_error : string := "Pass at least one tensor to tf.stack".
Definition concat_error : string := "Pass at least one tensor to concat".
Definition reshape_error : string :=
  "Cannot infer the missing size in [0,-1] when there are 0 elements".

Section Ops.

Context (B : Backend).

(** [t.slice([begin], [size])] *)
Definition slice1d (t : Tensor1D) (begin size : nat) : Tensor1D :=
  take size (drop begin t).

(** [tf.pad(t, [[before, after]])]: zeros on both sides. *)
Definition pad1d (t : Tensor1D) (before after : nat) : Tensor1D :=
  replicate before 0%float ++ t ++ replicate after 0%float.

(** [tf.stack(frames)]: the tensors become the rows; the library asserts
    that there is at least one tensor. *)
Definition stack (frames : list Tensor1D) : outcome Tensor2D :=
  match frames with
  | [] => Throw stack_error
  | _ :: _ => Return frames
  end.

(** [t.slice([begin, 0], [size, -1])]: [size] rows from row [begin]. *)
Definition slice_rows (t : Tensor2D) (begin size : nat) : Tensor2D :=
  take size (drop begin t).

(** [t.slice([0, 0], [-1, size])]: the first [size] columns of every row. *)
Definition slice_cols (t : Tensor2D) (size : nat) : Tensor2D :=
  fmap (take size) t.

(** [tf.concat(ts, 0)]: the rows of all the tensors, in order; the library
    asserts that there is at least one tensor. *)
Definition concat (ts : list Tensor2D) : outcome Tensor2D :=
  match ts with
  | [] => Throw concat_error
  | _ :: _ => Return (mjoin ts)
  end.

(** [t.reshape([t.shape[0], -1])]: the row length is inferred from the
    number of elements, which the library refuses to do when there is no
    row; otherwise the tensor keeps its rows. *)
Definition reshape_rows (t : Tensor2D) : outcome Tensor2D :=
  match t with
  | [] => Throw reshape_error
  | _ :: _ => Return t
  end.

(** [t.shape[0]] and [t.shape[1]] *)
Definition shape0 (t : Tensor2D) : nat := length t.
Definition shape1 (t : Tensor2D) : nat :=
  match t with
  | [] => 0
  | row :: _ => length row
  end.

(** [tf.signal.hammingWindow(windowLength)] *)
Definition hammingWindow (windowLength : nat) : Tensor1D :=
  fmap (k_hamming B windowLength) (seq 0 windowLength).

(** [a.mul(b)] of a matrix and a vector of the row length: [b] is
    broadcast over the rows. *)
Definition mul_rows (a : Tensor2D) (b : Tensor1D) : Tensor2D :=
  fmap (fun row => zip_with (k_mul B) row b) a.

(** [tf.spectral.rfft(input, fftLength?)]: each row is cropped or
    zero-padded to [fftLength] when that is given and is taken as it is
    otherwise; of the transform of a row of length [len] the bins
    [0 .. len / 2] are kept. *)
Definition rfft (input : Tensor2D) (fftLength : option nat) : list (list complex) :=
  fmap (fun row =>
         let adjusted :=
           match fftLength with
           | Some m => take m row ++ replicate (m - length row) 0%float
           | None => row
           end in
         fmap (k_dft B adjusted) (seq 0 (length adjusted / 2 + 1)))
      input.

(** Element by element: [abs] of a complex tensor, [square], [div] and
    [add] with a scalar, [log]. *)
Definition abs (t : list (list complex)) : Tensor2D :=
  fmap (M := list) (fmap (M := list) (k_abs B)) t.
Definition square (t : Tensor2D) : Tensor2D :=
  fmap (M := list) (fmap (M := list) (k_square B)) t.
Definition div_scalar (t : Tensor2D) (c : float) : Tensor2D :=
  fmap (M := list) (fmap (M := list) (fun x => k_div B x c)) t.
Definition add_scalar (t : Tensor2D) (c : float) : Tensor2D :=
  fmap (M := list) (fmap (M := list) (fun x => k_add B x c)) t.
Definition log (t : Tensor2D) : Tensor2D :=
  fmap (M := list) (fmap (M := list) (k_log B)) t.

(** [tf.matMul(x, m)] with [m] given by its columns. *)
Definition matMul (x : Tensor2D) (columns : list (list float)) : Tensor2D :=
  fmap (fun row => fmap (k_dot B row) columns) x.

End Ops.
End tf.

(** ** AudioProcessor *)

Record AudioProcessor := {
  sampleRate : nat;
  frameLength : nat;
  frameStep : nat;
  fftSize : nat;
  numCoeffs : nat;
  batchSize : nat
}.

(** The field initialisers of the class. *)
Definition new_AudioProcessor : AudioProcessor := {|
  sampleRate := 16000;
  frameLength := 400;
  frameStep := 160;
  fftSize := 512;
  numCoeffs := 20;
  batchSize := 32
|}.

(** The same processor with another [batchSize] (the one field that is not
    [readonly]). *)
Definition with_batchSize (this : AudioProcessor) (b : nat) : AudioProcessor := {|
  sampleRate := sampleRate this;
  frameLength := frameLength this;
  frameStep := frameStep this;
  fftSize := fftSize this;
  numCoeffs := numCoeffs this;
  batchSize := b
|}.

Section AudioProcessorMethods.

Context (B : Backend) (this : AudioProcessor).

(** The [while] loop of [frame]; [fuel] bounds its iterations. *)
Fixpoint frame_loop (fuel : nat) (signal : Tensor1D) (start : nat)
    (frames : list Tensor1D) : outcome (list Tensor1D) :=
  match fuel with
  | O => OutOfFuel
  | S fuel =>
    if start <? length signal then
      let end_ := Nat.min (start + frameLength this) (length signal) in
      let frame :=
        if end_ - start <? frameLength this then
          let currentFrame := tf.slice1d signal start (end_ - start) in
          tf.pad1d currentFrame 0 (frameLength this - (end_ - start))
        else
          tf.slice1d signal start (frameLength this) in
      frame_loop fuel signal (start + frameStep this) (frames ++ [frame])
    else
      Return frames
  end.

(** [frame] *)
Definition frame (fuel : nat) (signal : Tensor1D) : outcome Tensor2D :=
  frames ← frame_loop fuel signal 0 [];
  tf.stack frames.

(** [dct]: [k] and [n] run over [tf.range(0, numBins)], as a row and as a
    column; entry [(n, k)] of the matrix is
    [cos (k * 2 * (n + 1) * (PI / (2 * numBins)))], and column [k] lists it
    over [n]. *)
Definition dctMatrix_column (numBins k : nat) : list float :=
  fmap (fun n =>
         k_cos B (k_mul B (k_mul B (k_mul B (of_nat k) 2%float)
                                    (k_add B (of_nat n) 1%float))
                          (fround (Math_PI / (2 * of_nat numBins))%float)))
      (seq 0 numBins).

Definition dct (x : Tensor2D) : Tensor2D :=
  let numBins := tf.shape1 x in
  tf.matMul B x (fmap (dctMatrix_column numBins) (seq 0 numBins)).

(** [computeLFCC] up to [powerSpectrum], lines 339-345. *)
Definition lfcc_powerSpectrum (frames : Tensor2D) : Tensor2D :=
  let hammingWindow := tf.hammingWindow B (frameLength this) in
  let windowedFrames := tf.mul_rows B frames hammingWindow in
  let fft := tf.rfft B windowedFrames None in
  tf.div_scalar B (tf.square B (tf.abs B fft)) (of_nat (fftSize this)).

(** [computeLFCC] *)
Definition computeLFCC (frames : Tensor2D) : outcome Tensor2D :=
  let powerSpectrum := lfcc_powerSpectrum frames in
  let logPowerSpectrum := tf.log B (tf.add_scalar B powerSpectrum (fround 1e-6%float)) in
  reshaped ← tf.reshape_rows logPowerSpectrum;
  let dct := dct reshaped in
  Return (tf.slice_cols dct (numCoeffs this)).

(** The [for] loop of [extractFeatures]; [fuel] bounds its iterations. *)
Fixpoint batch_loop (fuel : nat) (frames : Tensor2D) (i : nat)
    (lfccFeatures : list Tensor2D) : outcome (list Tensor2D) :=
  match fuel with
  | O => OutOfFuel
  | S fuel =>
    let numFrames := tf.shape0 frames in
    if i <? numFrames then
      let batchSize' := Nat.min (batchSize this) (numFrames - i) in
      let batch := tf.slice_rows frames i batchSize' in
      batchLFCC ← computeLFCC batch;
      batch_loop fuel frames (i + batchSize this) (lfccFeatures ++ [batchLFCC])
    else
      Return lfccFeatures
  end.

(** [extractFeatures] *)
Definition extractFeatures (fuel : nat) (audioData : Float32Array) : outcome Tensor2D :=
  let signalTensor : Tensor1D := audioData in
  frames ← frame fuel signalTensor;
  lfccFeatures ← batch_loop fuel frames 0 [];
  tf.concat lfccFeatures.

End AudioProcessorMethods.

(** ** Vocabulary of the statements *)

Definition power_of_two (n : nat) : Prop := exists k : nat, n = 2 ^ k.

(** [ceil (a / b)] on naturals. *)
Definition ceil_div (a b : nat) : nat := (a + b - 1) / b.

(** The [frameLength] samples from offset [start], zeros past the end. *)
Definition frame_at (signal : Tensor1D) (frameLength start : nat) : Tensor1D :=
  (fun j => default 0%float (signal !! (start + j))) <$> seq 0 frameLength.

Section Rows.

Context (B : Backend) (this : AudioProcessor).

(** The number of bins [tf.spectral.rfft] keeps of a row of [len] samples
    after the window (a vector of [frameLength] entries) has multiplied it. *)
Definition bins (len : nat) : nat := Nat.min len (frameLength this) / 2 + 1.

(** [computeLFCC] up to the logarithm, and from there on with the size of
    the cosine matrix given. *)
Definition logPowerSpectrum (frames : Tensor2D) : Tensor2D :=
  tf.log B (tf.add_scalar B (lfcc_powerSpectrum B this frames) (fround 1e-6%float)).

Definition lfcc_with (numBins : nat) (frames : Tensor2D) : Tensor2D :=
  tf.slice_cols
    (tf.matMul B (logPowerSpectrum frames) (dctMatrix_column B numBins <$> seq 0 numBins))
    (numCoeffs this).

(** The same with the size [dct] reads off the batch, and the one row of a
    batch of one frame. *)
Definition lfcc_rows (frames : Tensor2D) : Tensor2D :=
  lfcc_with (tf.shape1 (logPowerSpectrum frames)) frames.

Definition lfcc_row (numBins : nat) (frame : Tensor1D) : list float :=
  default [] (lfcc_with numBins [frame] !! 0).

End Rows.

(** ** A concrete engine

    The theorems below hold for every [MathObject] and every [Backend].  To
    run the code on concrete inputs one of each is needed: truncated power
    series evaluated in binary64, and kernels that round to binary32. *)

Module Sample.

(** [sum_{i < terms} t_i] with [t_0 = first] and [t_(i+1) = next i t_i]. *)
Fixpoint series (terms : nat) (i : float) (term acc : float)
    (next : float -> float -> float) : float :=
  match terms with
  | O => acc
  | S terms => series terms (i + 1)%float (next i term) (acc + term)%float next
  end.

Definition cos (x : float) : float :=
  series 24 0%float 1%float 0%float
    (fun i t => (- (t * x * x) / ((2 * i + 1) * (2 * i + 2)))%float).

Definition sin (x : float) : float :=
  series 24 0%float x 0%float
    (fun i t => (- (t * x * x) / ((2 * i + 2) * (2 * i + 3)))%float).

Definition exp (x : float) : float :=
  series 40 0%float 1%float 0%float (fun i t => (t * x / (i + 1))%float).

(** [log x = 2 * atanh ((x - 1) / (x + 1))] *)
Definition log (x : float) : float :=
  if (x <? 0)%float then nan
  else
    let z := ((x - 1) / (x + 1))%float in
    (2 * series 60 0%float z 0%float
           (fun i t => (t * z * z * (2 * i + 1) / (2 * i + 3))%float))%float.

Definition Math : MathObject := {|
  Math_cos := cos;
  Math_sin := sin;
  Math_log := log;
  Math_exp := exp
|}.

(** The transform of a real row, bin [k], summed directly. *)
Definition dft (row : list float) (k : nat) : complex :=
  let n := length row in
  for_range 0 n
    (fun j (acc : complex) =>
       let theta := ((-2) * Math_PI * of_nat (k * j) / of_nat n)%float in
       let x := ToNumber (row !! j) in
       (fround (acc.1 + x * cos theta), fround (acc.2 + x * sin theta))%float)
    (0, 0)%float.

Definition dot (row column : list float) : float :=
  fold_left (fun acc xy => fround (acc + xy.1 * xy.2)%float) (zip row column) 0%float.

Definition backend : Backend := {|
  k_hamming := fun n i =>
    fround (0.54 - 0.46 * cos (2 * Math_PI * of_nat i / of_nat (n - 1)))%float;
  k_mul := fun x y => fround (x * y)%float;
  k_add := fun x y => fround (x + y)%float;
  k_div := fun x y => fround (x / y)%float;
  k_square := fun x => fround (x * x)%float;
  k_log := fun x => fround (log x);
  k_cos := fun x => fround (cos x);
  k_abs := fun z => fround (sqrt (z.1 * z.1 + z.2 * z.2))%float;
  k_dft := dft;
  k_dot := dot
|}.

End Sample.

(** * Properties *)

(** ** NaN is absorbing *)

Module NaN.

Lemma add_r x : (x + nan)%float = nan.
Proof.
  apply Prim2SF_inj. rewrite add_spec. change (Prim2SF nan) with S754_nan.
  destruct (Prim2SF x); reflexivity.
Qed.

Lemma add_l x : (nan + x)%float = nan.
Proof. apply Prim2SF_inj. rewrite add_spec. reflexivity. Qed.

Lemma sub_r x : (x - nan)%float = nan.
Proof.
  apply Prim2SF_inj. rewrite sub_spec. change (Prim2SF nan) with S754_nan.
  destruct (Prim2SF x); reflexivity.
Qed.

Lemma sub_l x : (nan - x)%float = nan.
Proof. apply Prim2SF_inj. rewrite sub_spec. reflexivity. Qed.

Lemma mul_r x : (x * nan)%float = nan.
Proof.
  apply Prim2SF_inj. rewrite mul_spec. change (Prim2SF nan) with S754_nan.
  destruct (Prim2SF x); reflexivity.
Qed.

Lemma mul_l x : (nan * x)%float = nan.
Proof. apply Prim2SF_inj. rewrite mul_spec. reflexivity. Qed.

Lemma div_l x : (nan / x)%float = nan.
Proof. apply Prim2SF_inj. rewrite div_spec. reflexivity. Qed.

Lemma fround_nan : fround nan = nan.
Proof. reflexivity. Qed.

Lemma not_positive : (0 <? nan)%float = false.
Proof. reflexivity. Qed.

Lemma not_nonnegative : (0 <=? nan)%float = false.
Proof. reflexivity. Qed.

Lemma max_l y : Math_max nan y = nan.
Proof. reflexivity. Qed.

(** A read of an array of NaNs is NaN, inside and outside its bounds. *)
Lemma read_replicate n i : ToNumber (get (replicate n nan) i) = nan.
Proof.
  unfold get, ToNumber. destruct (lookup _ _) as [x|] eqn:E; [|reflexivity].
  apply lookup_replicate in E as [-> _]. reflexivity.
Qed.

End NaN.

Create Rewrite HintDb nan.
#[local] Hint Rewrite NaN.add_r NaN.add_l NaN.sub_r NaN.sub_l NaN.mul_r NaN.mul_l
  NaN.div_l NaN.fround_nan NaN.read_replicate : nan.

(** ** Loops *)

Lemma for_range_0 {S : Type} lo (body : nat -> S -> S) s :
  for_range lo 0 body s = s.
Proof. reflexivity. Qed.

Lemma for_range_S {S : Type} lo count (body : nat -> S -> S) s :
  for_range lo (Datatypes.S count) body s = body (lo + count) (for_range lo count body s).
Proof. unfold for_range. rewrite seq_S, fold_left_app. reflexivity. Qed.

(** A loop whose steps keep a property keeps it. *)
Lemma for_range_invariant {S : Type} (P : S -> Prop) lo count (body : nat -> S -> S) s :
  P s -> (forall i s, P s -> P (body i s)) -> P (for_range lo count body s).
Proof.
  intros Hs Hbody. induction count as [|count IH]; [exact Hs|].
  rewrite for_range_S. apply Hbody, IH.
Qed.

Lemma length_set a i v : length (set a i v) = length a.
Proof. apply length_insert. Qed.

Lemma length_new_Float32Array n : length (new_Float32Array n) = n.
Proof. apply length_replicate. Qed.

(** ** The power-of-two test *)

Lemma ToInt32_small z : (0 <= z < 2 ^ 31)%Z -> ToInt32 z = z.
Proof.
  intros Hz. unfold ToInt32. cbv zeta.
  rewrite Z.mod_small by lia.
  destruct (Z.leb_spec (2 ^ 31) z); lia.
Qed.

Lemma land_pow2_pred k : (0 <= k)%Z -> Z.land (2 ^ k) (2 ^ k - 1) = 0%Z.
Proof.
  intros Hk. rewrite Z.sub_1_r, <- Z.ones_equiv, Z.land_ones by lia.
  apply Z.mod_same. apply Z.pow_nonzero; lia.
Qed.

(** Every power of two passes the test [(n & (n - 1)) !== 0]. *)
Lemma bitand_pow2 (k : nat) :
  bitand (Z.of_nat (2 ^ k)) (Z.of_nat (2 ^ k) - 1) = 0%Z.
Proof.
  rewrite Nat2Z.inj_pow. change (Z.of_nat 2) with 2%Z.
  set (j := Z.of_nat k). assert (Hj : (0 <= j)%Z) by lia. clearbody j.
  unfold bitand.
  destruct (Z.lt_ge_cases j 31) as [Hlt|Hge].
  - assert (0 < 2 ^ j < 2 ^ 31)%Z.
    { split; [apply Z.pow_pos_nonneg; lia|apply Z.pow_lt_mono_r; lia]. }
    rewrite !ToInt32_small by lia. apply land_pow2_pred; lia.
  - destruct (Z.eq_dec j 31%Z) as [->|Hne]; [reflexivity|].
    assert (E : ToInt32 (2 ^ j) = 0%Z).
    { unfold ToInt32. cbv zeta.
      replace j with ((j - 32) + 32)%Z by lia.
      rewrite Z.pow_add_r, Z.mod_mul by lia. reflexivity. }
    rewrite E. reflexivity.
Qed.

(** So does the empty input. *)
Lemma bitand_zero : bitand (Z.of_nat 0) (Z.of_nat 0 - 1) = 0%Z.
Proof. reflexivity. Qed.

(** Below 2^31 nothing else passes. *)
Lemma land_pred_pos (p : positive) :
  Z.land (Z.pos p) (Z.pos p - 1) = 0%Z -> exists k : nat, Z.pos p = (2 ^ Z.of_nat k)%Z.
Proof.
  induction p as [p IH|p IH|]; intros H.
  - (* 2p+1: the test leaves 2p *)
    exfalso. assert (Hp : Z.pos p = 0%Z); [|lia].
    apply Z.bits_inj'. intros n Hn. rewrite Z.bits_0.
    assert (Hb : Z.testbit (Z.land (Z.pos p~1) (Z.pos p~1 - 1)) (Z.succ n) = false)
      by (rewrite H; apply Z.bits_0).
    rewrite Z.land_spec in Hb.
    replace (Z.pos p~1) with (2 * Z.pos p + 1)%Z in Hb by lia.
    replace (2 * Z.pos p + 1 - 1)%Z with (2 * Z.pos p)%Z in Hb by lia.
    rewrite Z.testbit_even_succ, Z.testbit_odd_succ, andb_diag in Hb by lia. exact Hb.
  - (* 2p: the test on p, doubled *)
    assert (Hd : Z.land (Z.pos p) (Z.pos p - 1) = 0%Z).
    { apply Z.bits_inj'. intros n Hn. rewrite Z.bits_0.
      assert (Hb : Z.testbit (Z.land (Z.pos p~0) (Z.pos p~0 - 1)) (Z.succ n) = false)
        by (rewrite H; apply Z.bits_0).
      rewrite Z.land_spec in Hb |- *.
      replace (Z.pos p~0) with (2 * Z.pos p)%Z in Hb by lia.
      replace (2 * Z.pos p - 1)%Z with (2 * (Z.pos p - 1) + 1)%Z in Hb by lia.
      rewrite Z.testbit_even_succ, Z.testbit_odd_succ in Hb by lia. exact Hb. }
    destruct (IH Hd) as [k Hk]. exists (S k).
    rewrite Nat2Z.inj_succ, Z.pow_succ_r by lia. lia.
  - exists 0. reflexivity.
Qed.

Lemma bitand_pred_pow2 (n : nat) :
  0 < n -> (Z.of_nat n < 2 ^ 31)%Z ->
  bitand (Z.of_nat n) (Z.of_nat n - 1) = 0%Z -> exists k : nat, n = 2 ^ k.
Proof.
  intros Hpos Hlt H. unfold bitand in H.
  rewrite !ToInt32_small in H by lia.
  destruct (Z.of_nat n) as [|p|p] eqn:E; try lia.
  destruct (land_pred_pos p H) as [k Hk]. exists k.
  apply Nat2Z.inj. rewrite E, Hk, Nat2Z.inj_pow. reflexivity.
Qed.

Lemma pow2_pos (k : nat) : 0 < 2 ^ k.
Proof. induction k; simpl; lia. Qed.

Lemma below_half_double h : below_half (2 * h) = h.
Proof.
  unfold below_half. symmetry. apply (Nat.div_unique (2 * h + 1) 2 h 1); lia.
Qed.

Lemma trunc_half_double h : trunc_half (2 * h) = h.
Proof.
  unfold trunc_half. symmetry. apply (Nat.div_unique (2 * h) 2 h 0); lia.
Qed.

(** ** FFT *)

Lemma bind_Return {A B : Type} (a : A) (k : A -> outcome B) : (Return a ≫= k) = k a.
Proof. reflexivity. Qed.

Lemma lookup_set (a : Float32Array) i j v :
  set a i v !! j = if decide (i = j ∧ i < length a) then Some (fround v) else a !! j.
Proof. apply list_lookup_insert. Qed.

Section FFTFacts.

Context (Math : MathObject).

Lemma FFT_eq fuel signal :
  FFT Math (S fuel) signal =
    let n := length signal in
    if negb (bitand (Z.of_nat n) (Z.of_nat n - 1) =? 0)%Z then
      Throw precondition_error
    else if n =? 1 then
      Return signal
    else
      let '(even, odd) :=
        for_range 0 (below_half n) (split_step signal)
          (new_Float32Array (trunc_half n), new_Float32Array (trunc_half n)) in
      evenFFT ← FFT Math fuel even;
      oddFFT ← FFT Math fuel odd;
      Return (for_range 0 (below_half n) (combine_step Math n evenFFT oddFFT)
                (new_Float32Array (n * 2))).
Proof. reflexivity. Qed.

(** The split keeps the lengths the two halves were created with. *)
Lemma split_lengths signal count e o even odd :
  for_range 0 count (split_step signal) (e, o) = (even, odd) ->
  length even = length e ∧ length odd = length o.
Proof.
  intros H.
  assert (P : length (for_range 0 count (split_step signal) (e, o)).1 = length e
              ∧ length (for_range 0 count (split_step signal) (e, o)).2 = length o).
  { apply (for_range_invariant
             (fun eo => length eo.1 = length e ∧ length eo.2 = length o)); [done|].
    intros i [e' o'] [He Ho]. simpl. rewrite !length_set. done. }
  rewrite H in P. exact P.
Qed.

(** A butterfly whose odd operand reads NaN as its imaginary part stores
    four NaNs. *)
Lemma combine_step_nan n evenFFT oddFFT k result :
  ToNumber (get oddFFT (k * 2 + 1)) = nan ->
  combine_step Math n evenFFT oddFFT k result =
    <[k * 2 + n + 1 := nan]> (<[k * 2 + n := nan]> (<[k * 2 + 1 := nan]>
      (<[k * 2 := nan]> result))).
Proof.
  intros H. unfold combine_step. cbv zeta. rewrite H.
  autorewrite with nan. unfold set. autorewrite with nan. reflexivity.
Qed.

Lemma combine_nan n half evenFFT oddFFT :
  n = 2 * half ->
  (forall j, ToNumber (get oddFFT (j * 2 + 1)) = nan) ->
  for_range 0 half (combine_step Math n evenFFT oddFFT) (new_Float32Array (n * 2))
  = replicate (n * 2) nan.
Proof.
  intros Hn Hodd.
  assert (Inv : forall m, m <= half ->
    let r := for_range 0 m (combine_step Math n evenFFT oddFFT)
               (new_Float32Array (n * 2)) in
    length r = n * 2 ∧
    forall i, i < 2 * m ∨ (n <= i ∧ i < n + 2 * m) -> r !! i = Some nan).
  { induction m as [|m IH]; intros Hm; cbv zeta.
    - split; [apply length_new_Float32Array|]. intros i Hi. lia.
    - rewrite for_range_S. simpl (0 + m).
      destruct (IH ltac:(lia)) as [Hlen Hnan].
      rewrite combine_step_nan by apply Hodd. split.
      + rewrite !length_insert. exact Hlen.
      + intros i Hi. rewrite !list_lookup_insert, !length_insert, Hlen.
        repeat case_decide; try done. apply Hnan. lia. }
  destruct (Inv half ltac:(lia)) as [Hlen Hnan].
  apply list_eq. intros i. destruct (decide (i < n * 2)) as [Hi|Hi].
  - rewrite Hnan by lia. symmetry. apply lookup_replicate_2. lia.
  - rewrite !lookup_ge_None_2; [done| |]; rewrite ?length_replicate; lia.
Qed.

(** What [FFT] returns on a power-of-two length: a single sample comes back
    as it is, one number; any longer input comes back as [2n] NaNs, because
    the butterflies of the two-sample level read the imaginary parts the
    one-sample level never stored. *)
Lemma FFT_pow2 k : forall signal fuel,
  length signal = 2 ^ k -> k < fuel ->
  FFT Math fuel signal =
    Return (match k with O => signal | S _ => replicate (2 ^ k * 2) nan end).
Proof.
  induction k as [|k IH]; intros signal fuel Hlen Hfuel;
    (destruct fuel as [|fuel]; [lia|]); rewrite FFT_eq; cbv zeta; rewrite Hlen.
  - reflexivity.
  - rewrite bitand_pow2. change (negb (0 =? 0)%Z) with false. cbv iota.
    pose proof (pow2_pos k) as Hpos.
    destruct (Nat.eqb_spec (2 ^ S k) 1) as [E|_]; [simpl in E; lia|].
    change (2 ^ S k) with (2 * 2 ^ k).
    rewrite below_half_double, trunc_half_double.
    destruct (for_range 0 (2 ^ k) (split_step signal) _) as [even odd] eqn:Hsplit.
    apply split_lengths in Hsplit as [He Ho].
    rewrite length_new_Float32Array in He, Ho.
    rewrite (IH even fuel He ltac:(lia)), bind_Return.
    rewrite (IH odd fuel Ho ltac:(lia)), bind_Return.
    f_equal. apply combine_nan; [reflexivity|].
    intros j. destruct k as [|k]; [|apply NaN.read_replicate].
    unfold get. rewrite lookup_ge_None_2; [reflexivity|]. rewrite Ho. simpl. lia.
Qed.

End FFTFacts.

(** ** Loops that fill an array *)

Lemma length_fill (f : nat -> float) lo count (a : Float32Array) :
  length (for_range lo count (fun i a => set a i (f i)) a) = length a.
Proof.
  apply (for_range_invariant (fun r : Float32Array => length r = length a)); [done|].
  intros i r Hr. rewrite length_set. exact Hr.
Qed.

Lemma lookup_fill (f : nat -> float) lo count (a : Float32Array) j :
  for_range lo count (fun i a => set a i (f i)) a !! j =
    if decide (lo <= j ∧ j < lo + count ∧ j < length a)
    then Some (fround (f j)) else a !! j.
Proof.
  induction count as [|count IH].
  - rewrite for_range_0. case_decide; [lia|done].
  - rewrite for_range_S, lookup_set, length_fill, IH.
    repeat case_decide; try done; try lia.
    destruct_and!. subst. done.
Qed.

(** ** The transform: length test, base case, recursion *)

Section Transform.

Context (Math : MathObject).

(** More fuel never changes a finished call. *)
Lemma FFT_fuel_mono fuel : forall signal r fuel',
  FFT Math fuel signal = r -> r <> OutOfFuel -> fuel <= fuel' ->
  FFT Math fuel' signal = r.
Proof.
  induction fuel as [|fuel IH]; intros signal r fuel' H Hr Hle; [simpl in H; congruence|].
  destruct fuel' as [|fuel']; [lia|].
  rewrite FFT_eq in H |- *. cbv zeta in H |- *.
  destruct (negb _); [exact H|]. destruct (_ =? 1); [exact H|].
  destruct (for_range 0 _ (split_step signal) _) as [even odd].
  destruct (FFT Math fuel even) as [evenFFT| |] eqn:Ee.
  - rewrite (IH even (Return evenFFT) fuel' Ee) by (done || lia).
    rewrite bind_Return in H |- *.
    destruct (FFT Math fuel odd) as [oddFFT| |] eqn:Eo.
    + rewrite (IH odd (Return oddFFT) fuel' Eo) by (done || lia). exact H.
    + rewrite (IH odd (Throw message) fuel' Eo) by (done || lia). exact H.
    + simpl in H. congruence.
  - rewrite (IH even (Throw message) fuel' Ee) by (done || lia). exact H.
  - simpl in H. congruence.
Qed.

(** A length that is not a power of two is rejected at once (lengths
    below 2^31, where [ToInt32] is the identity). *)
Lemma FFT_rejects fuel signal :
  0 < length signal -> (Z.of_nat (length signal) < 2 ^ 31)%Z ->
  ~ power_of_two (length signal) ->
  FFT Math (S fuel) signal = Throw precondition_error.
Proof.
  intros Hpos Hlt Hnp. rewrite FFT_eq. cbv zeta.
  destruct (Z.eqb_spec (bitand (Z.of_nat (length signal)) (Z.of_nat (length signal) - 1)) 0)
    as [E|_]; [|reflexivity].
  destruct Hnp. apply bitand_pred_pow2; assumption.
Qed.

(** For a non-empty input the precondition error is raised exactly on the
    lengths that are not powers of two. *)
Lemma FFT_throws_iff signal :
  0 < length signal -> (Z.of_nat (length signal) < 2 ^ 31)%Z ->
  (exists fuel, FFT Math fuel signal = Throw precondition_error)
  <-> ~ power_of_two (length signal).
Proof.
  intros Hpos Hlt. split.
  - intros [fuel H] [k Hk].
    pose proof (FFT_pow2 Math k signal (S (k + fuel)) Hk ltac:(lia)) as Hret.
    rewrite (FFT_fuel_mono fuel signal _ (S (k + fuel)) H) in Hret by (done || lia).
    discriminate.
  - intros Hnp. exists 1. apply FFT_rejects; assumption.
Qed.

(** The spectrum of two or more samples has two numbers per sample. *)
Lemma FFT_interleaved k signal fuel :
  length signal = 2 ^ S k -> S k < fuel ->
  exists spectrum, FFT Math fuel signal = Return spectrum
                   ∧ length spectrum = 2 * length signal.
Proof.
  intros Hlen Hfuel. rewrite (FFT_pow2 Math (S k) signal fuel Hlen Hfuel).
  eexists. split; [reflexivity|]. rewrite length_replicate, Hlen. lia.
Qed.

(** C2, at N = 1.  The base case returns a copy of its input: the spectrum
    of one sample [x] is the single number [x], not the pair [(x, 0)], so
    the buffer has 1 float where the specification has 2 * N = 2. *)
Theorem FFT_single_sample fuel x :
  FFT Math (S fuel) [x] = Return [x] ∧ length [x] <> 2 * 1.
Proof. split; [reflexivity|simpl; lia]. Qed.

(** C3, at length 0.  The empty frame passes the test [(n & (n - 1)) !== 0]
    (0 & -1 is 0), is not the base case, and is split into two empty
    halves: the call recurses on the empty frame for ever (whatever the
    fuel, it is used up) and the precondition error is never raised. *)
Theorem FFT_empty_never_throws fuel :
  FFT Math fuel [] = OutOfFuel ∧ ~ power_of_two (length (@nil float)).
Proof.
  split.
  - induction fuel as [|fuel IH]; [reflexivity|].
    rewrite FFT_eq. simpl. change (new_Float32Array (trunc_half 0)) with (@nil float).
    rewrite IH. reflexivity.
  - intros [k Hk]. pose proof (pow2_pos k). simpl in Hk. lia.
Qed.

(** C10.  On a power-of-two length the recursion ends: the two halves the
    call recurses on have half the length, and with fuel above the
    exponent the call returns, the same result whatever the fuel. *)
Theorem FFT_terminates k signal :
  length signal = 2 ^ k ->
  (exists spectrum, forall fuel, k < fuel -> FFT Math fuel signal = Return spectrum)
  ∧ (forall even odd,
       for_range 0 (below_half (length signal)) (split_step signal)
         (new_Float32Array (trunc_half (length signal)),
          new_Float32Array (trunc_half (length signal))) = (even, odd) ->
       length even = length signal / 2 ∧ length odd = length signal / 2).
Proof.
  intros Hlen. split.
  - exists (match k with O => signal | S _ => replicate (2 ^ k * 2) nan end).
    intros fuel Hfuel. apply FFT_pow2; assumption.
  - intros even odd Hsplit. apply split_lengths in Hsplit.
    rewrite length_new_Float32Array in Hsplit. exact Hsplit.
Qed.

End Transform.

Lemma FFT_terminates_witness :
  length [1; 2; 3; 4]%float = 2 ^ 2
  ∧ (exists spectrum, forall fuel, 2 < fuel ->
       FFT Sample.Math fuel [1; 2; 3; 4]%float = Return spectrum).
Proof.
  split; [reflexivity|].
  exact (proj1 (FFT_terminates Sample.Math 2 [1; 2; 3; 4]%float eq_refl)).
Defined.

(** ** Power spectrum, round trip and the scalar features *)

Section Spectrum.

Context (Math : MathObject).

(** The power spectrum of any frame of power-of-two length is all NaN. *)
Lemma powerSpectrum_pow2 k signal fuel :
  length signal = 2 ^ k -> k < fuel ->
  powerSpectrum Math fuel signal = Return (replicate (2 ^ k / 2 + 1) nan).
Proof.
  intros Hlen Hfuel. unfold powerSpectrum.
  rewrite (FFT_pow2 Math k signal fuel Hlen Hfuel), bind_Return. cbv zeta.
  rewrite Hlen. f_equal. destruct k as [|k].
  - (* one sample: the imaginary part of bin 0 is read outside the array *)
    destruct signal as [|x [|? ?]]; try discriminate.
    cbn. autorewrite with nan. reflexivity.
  - change (2 ^ S k) with (2 * 2 ^ k).
    rewrite below_half_double, Nat.even_mul, orb_true_l.
    fold (trunc_half (2 * 2 ^ k)). rewrite trunc_half_double.
    set (m := 2 ^ k). set (fft := replicate (2 * m * 2) nan).
    apply list_eq. intros j.
    unfold set at 1.
    rewrite list_lookup_insert, length_fill, length_set, length_new_Float32Array.
    rewrite lookup_fill, length_set, length_new_Float32Array, lookup_set,
      length_new_Float32Array.
    unfold fft. autorewrite with nan.
    destruct (decide (j < m + 1)) as [Hj|Hj].
    + rewrite lookup_replicate_2 by lia.
      repeat case_decide; try done; lia.
    + rewrite (lookup_ge_None_2 (replicate _ _)) by (rewrite length_replicate; lia).
      repeat case_decide; try lia.
      apply lookup_ge_None_2. rewrite length_new_Float32Array. lia.
Qed.

(** Scaling a buffer of NaNs gives NaNs. *)
Lemma scale_real_nan n len : scale_real n (replicate len nan) = replicate n nan.
Proof.
  unfold scale_real. apply list_eq. intros j.
  rewrite lookup_fill, length_new_Float32Array. autorewrite with nan.
  case_decide.
  - symmetry. apply lookup_replicate_2. lia.
  - rewrite !lookup_ge_None_2; [done| |]; rewrite ?length_replicate;
      rewrite ?length_new_Float32Array; lia.
Qed.

(** C1.  Transform, transform again, scale by 1/N and keep the real part:
    on every input of two or more samples (a power of two of them) the
    result is N NaNs, and a NaN is within no tolerance of any sample. *)
Theorem FFT_round_trip_is_nan k signal fuel :
  length signal = 2 ^ S k -> S (S k) < fuel ->
  exists spectrum again,
    FFT Math fuel signal = Return spectrum
    ∧ FFT Math fuel spectrum = Return again
    ∧ scale_real (length signal) again = replicate (length signal) nan
    ∧ forall x, (abs (nan - x) <=? 0.001)%float = false.
Proof.
  intros Hlen Hfuel.
  exists (replicate (2 ^ S k * 2) nan), (replicate (2 ^ S (S k) * 2) nan).
  split; [exact (FFT_pow2 Math (S k) signal fuel Hlen ltac:(lia))|].
  split; [apply (FFT_pow2 Math (S (S k))); [|assumption];
          rewrite length_replicate; simpl; lia|].
  split; [apply scale_real_nan|].
  intros x. rewrite NaN.sub_l. reflexivity.
Qed.

(** The filters are this round trip with some bins zeroed in between. *)
Lemma lowPassFilter_nan k signal cutoffFreq fuel :
  length signal = 2 ^ S k -> S (S k) < fuel ->
  lowPassFilter Math fuel signal cutoffFreq = Return (replicate (2 ^ S k) nan).
Proof.
  intros Hlen Hfuel. unfold lowPassFilter. cbv zeta.
  rewrite (FFT_pow2 Math (S k) signal fuel Hlen ltac:(lia)), bind_Return.
  match goal with |- context [FFT Math fuel ?a] =>
    rewrite (FFT_pow2 Math (S (S k)) a fuel) end; [| |assumption].
  - rewrite bind_Return, Hlen. f_equal. apply scale_real_nan.
  - apply (for_range_invariant (fun a : Float32Array => length a = 2 ^ S (S k))).
    + rewrite length_replicate. simpl. lia.
    + intros i a Ha. destruct (_ && _); [|exact Ha]. rewrite !length_set. exact Ha.
Qed.

Lemma highPassFilter_nan k signal cutoffFreq fuel :
  length signal = 2 ^ S k -> S (S k) < fuel ->
  highPassFilter Math fuel signal cutoffFreq = Return (replicate (2 ^ S k) nan).
Proof.
  intros Hlen Hfuel. unfold highPassFilter. cbv zeta.
  rewrite (FFT_pow2 Math (S k) signal fuel Hlen ltac:(lia)), bind_Return.
  match goal with |- context [FFT Math fuel ?a] =>
    rewrite (FFT_pow2 Math (S (S k)) a fuel) end; [| |assumption].
  - rewrite bind_Return, Hlen. f_equal. apply scale_real_nan.
  - apply (for_range_invariant (fun a : Float32Array => length a = 2 ^ S (S k))).
    + rewrite length_replicate. simpl. lia.
    + intros i a Ha. destruct (_ || _); [|exact Ha]. rewrite !length_set. exact Ha.
Qed.

(** C4.  For every frame of power-of-two length [powerSpectrum] returns
    N/2 + 1 values, and every one of them is NaN: none is the squared
    magnitude of a bin and none is non-negative. *)
Theorem powerSpectrum_is_nan k signal fuel :
  length signal = 2 ^ k -> k < fuel ->
  exists power,
    powerSpectrum Math fuel signal = Return power
    ∧ length power = length signal / 2 + 1
    ∧ forall i v, power !! i = Some v -> v = nan ∧ (0 <=? v)%float = false.
Proof.
  intros Hlen Hfuel. exists (replicate (2 ^ k / 2 + 1) nan).
  split; [apply powerSpectrum_pow2; assumption|].
  split; [rewrite length_replicate, Hlen; reflexivity|].
  intros i v Hv. apply lookup_replicate in Hv as [-> _]. split; reflexivity.
Qed.

(** A sum that adds a NaN in its last step is NaN. *)
Lemma sum_nan (power : Float32Array) count :
  (forall i, ToNumber (get power i) = nan) ->
  for_range 0 (S count)
    (fun i acc => (acc + ToNumber (get power i))%float) 0%float = nan.
Proof. intros H. rewrite for_range_S, H. apply NaN.add_r. Qed.

Lemma spectralCentroid_pow2 k signal sampleRate fuel :
  length signal = 2 ^ k -> k < fuel ->
  spectralCentroid Math fuel signal sampleRate = Return 0%float.
Proof.
  intros Hlen Hfuel. unfold spectralCentroid.
  rewrite (powerSpectrum_pow2 k signal fuel Hlen Hfuel), bind_Return. cbv zeta.
  rewrite length_replicate, Nat.add_1_r, for_range_S. cbn [fst snd].
  autorewrite with nan. reflexivity.
Qed.

Lemma spectralFlatness_pow2 k signal fuel :
  length signal = 2 ^ k -> k < fuel ->
  spectralFlatness Math fuel signal = Return 0%float.
Proof.
  intros Hlen Hfuel. unfold spectralFlatness.
  rewrite (powerSpectrum_pow2 k signal fuel Hlen Hfuel), bind_Return. cbv zeta.
  rewrite length_replicate.
  set (m := 2 ^ k / 2 + 1).
  assert (Hfloor : for_range 0 m
    (fun i power => set power i (Math_max (ToNumber (get power i)) 1e-10%float))
    (replicate m nan) = replicate m nan).
  { apply (for_range_invariant (fun a : Float32Array => a = replicate m nan)); [done|].
    intros i a ->. rewrite NaN.read_replicate, NaN.max_l. unfold set.
    rewrite NaN.fround_nan. apply insert_replicate. }
  rewrite Hfloor, length_replicate. unfold m. rewrite Nat.add_1_r.
  rewrite (sum_nan (replicate _ nan)) by apply NaN.read_replicate.
  rewrite NaN.div_l. reflexivity.
Qed.

(** C8.  On an all-zero frame of power-of-two length both features return
    the number 0. *)
Theorem silent_frame_features k sampleRate fuel :
  k < fuel ->
  spectralCentroid Math fuel (replicate (2 ^ k) 0%float) sampleRate = Return 0%float
  ∧ spectralFlatness Math fuel (replicate (2 ^ k) 0%float) = Return 0%float.
Proof.
  intros Hfuel. split.
  - apply (spectralCentroid_pow2 k); [apply length_replicate|assumption].
  - apply (spectralFlatness_pow2 k); [apply length_replicate|assumption].
Qed.

End Spectrum.

Lemma FFT_round_trip_is_nan_witness :
  length [1; 2]%float = 2 ^ 1 ∧ 2 < 3
  ∧ exists spectrum again,
      FFT Sample.Math 3 [1; 2]%float = Return spectrum
      ∧ FFT Sample.Math 3 spectrum = Return again
      ∧ scale_real 2 again = [nan; nan]
      ∧ forall x, (abs (nan - x) <=? 0.001)%float = false.
Proof.
  split; [reflexivity|]. split; [lia|].
  exact (FFT_round_trip_is_nan Sample.Math 0 [1; 2]%float 3 eq_refl ltac:(lia)).
Defined.

Lemma powerSpectrum_is_nan_witness :
  length [1; 0; 0; 0]%float = 2 ^ 2 ∧ 2 < 3
  ∧ exists power,
      powerSpectrum Sample.Math 3 [1; 0; 0; 0]%float = Return power
      ∧ length power = 4 / 2 + 1
      ∧ forall i v, power !! i = Some v -> v = nan ∧ (0 <=? v)%float = false.
Proof.
  split; [reflexivity|]. split; [lia|].
  exact (powerSpectrum_is_nan Sample.Math 2 [1; 0; 0; 0]%float 3 eq_refl ltac:(lia)).
Defined.

Lemma silent_frame_features_witness :
  2 < 3
  ∧ spectralCentroid Sample.Math 3 [0; 0; 0; 0]%float 16000%float = Return 0%float
  ∧ spectralFlatness Sample.Math 3 [0; 0; 0; 0]%float = Return 0%float.
Proof.
  split; [lia|].
  exact (silent_frame_features Sample.Math 2 16000%float 3 ltac:(lia)).
Defined.

(** ** Pre-emphasis *)

Lemma lookup_preEmphasis signal alpha j :
  preEmphasis signal alpha !! j =
    if decide (j < length signal) then
      Some (fround (match j with
                    | O => ToNumber (get signal 0)
                    | S i => ToNumber (get signal j) - alpha * ToNumber (get signal i)
                    end)%float)
    else None.
Proof.
  unfold preEmphasis.
  rewrite lookup_fill, length_set, length_new_Float32Array, lookup_set,
    length_new_Float32Array.
  destruct j as [|i].
  - repeat case_decide; try done; try lia.
    apply lookup_ge_None_2. rewrite length_new_Float32Array. lia.
  - replace (S i - 1) with i by lia.
    repeat case_decide; try done; try lia.
    apply lookup_ge_None_2. rewrite length_new_Float32Array. lia.
Qed.

(** C9, as the code has it.  The result is a [Float32Array]: it has the
    length of the input, its first entry is the first sample, and entry
    [i >= 1] is [x[i] - alpha * x[i-1]], computed in double precision and
    rounded to single precision by the store.  On a constant signal every
    entry after the first is therefore the rounding of [c - alpha * c]. *)
Theorem preEmphasis_rounded (signal : Float32Array) (alpha : float) :
  wf signal ->
  length (preEmphasis signal alpha) = length signal
  ∧ preEmphasis signal alpha !! 0 = signal !! 0
  ∧ (forall i xi xp,
       signal !! S i = Some xi -> signal !! i = Some xp ->
       preEmphasis signal alpha !! S i = Some (fround (xi - alpha * xp)%float))
  ∧ (forall c i,
       (forall x, x ∈ signal -> x = c) -> 1 <= i < length signal ->
       preEmphasis signal alpha !! i = Some (fround (c - alpha * c)%float)).
Proof.
  intros Hwf.
  assert (Hlookup3 : forall i xi xp,
       signal !! S i = Some xi -> signal !! i = Some xp ->
       preEmphasis signal alpha !! S i = Some (fround (xi - alpha * xp)%float)).
  { intros i xi xp Hi Hp. rewrite lookup_preEmphasis.
    apply lookup_lt_Some in Hi as Hlt. rewrite decide_True by exact Hlt.
    unfold get. rewrite Hi, Hp. reflexivity. }
  split; [|split; [|split]].
  - unfold preEmphasis. rewrite length_fill, length_set. apply length_new_Float32Array.
  - rewrite lookup_preEmphasis. unfold get.
    destruct (signal !! 0) as [x0|] eqn:E0.
    + apply lookup_lt_Some in E0 as Hlt. rewrite decide_True by exact Hlt. simpl.
      f_equal. apply (Forall_lookup_1 _ _ _ _ Hwf E0).
    + apply lookup_ge_None_1 in E0. rewrite decide_False by lia. reflexivity.
  - exact Hlookup3.
  - intros c i Hconst [Hi1 Hi2]. destruct i as [|i]; [lia|].
    destruct (lookup_lt_is_Some_2 signal (S i) Hi2) as [xi Exi].
    destruct (lookup_lt_is_Some_2 signal i ltac:(lia)) as [xp Exp].
    rewrite (Hlookup3 i xi xp Exi Exp).
    rewrite (Hconst xi) by (eapply list_elem_of_lookup_2; exact Exi).
    rewrite (Hconst xp) by (eapply list_elem_of_lookup_2; exact Exp).
    reflexivity.
Qed.

Lemma preEmphasis_rounded_witness :
  wf [1; 1; 1]%float
  ∧ preEmphasis [1; 1; 1]%float 0.97%float
    = [1; 0.029999999329447746; 0.029999999329447746]%float
  ∧ length (preEmphasis [1; 1; 1]%float 0.97%float) = 3.
Proof.
  assert (Hwf : wf [1; 1; 1]%float) by (repeat constructor).
  split; [exact Hwf|]. split; [reflexivity|].
  exact (proj1 (preEmphasis_rounded [1; 1; 1]%float 0.97%float Hwf)).
Defined.

(** C9 as stated fails on constant signals, also when every value is read
    in single precision: [c - alpha * c] and [c * (1 - alpha)] are different
    Numbers and round to different single-precision values.  For [c = 17]
    and [alpha = 0.99999999] the stored entry is 1.69999992749581e-07 and
    the rounding of [c * (1 - alpha)] is 1.7000000696043571e-07; for
    [c = 1 + 2^-23] and [alpha = 1 - 2^-53] the stored entry is [2^-52],
    twice the rounding of [c * (1 - alpha)]. *)
Lemma preEmphasis_not_exact :
  wf [17; 17]%float
  ∧ preEmphasis [17; 17]%float 0.99999999%float !! 1
    <> Some (fround (17 * (1 - 0.99999999))%float)
  ∧ wf [0x1.000002p0; 0x1.000002p0]%float
  ∧ preEmphasis [0x1.000002p0; 0x1.000002p0]%float 0x1.fffffffffffffp-1%float !! 1
    <> Some (fround (0x1.000002p0 * (1 - 0x1.fffffffffffffp-1))%float).
Proof.
  split; [repeat constructor|]. split; [|split; [repeat constructor|]]; intros H;
    apply (f_equal (fun o => match o with
                             | Some v => (v =? 1.69999992749581e-07)%float
                                         || (v =? 0x1p-52)%float
                             | None => false
                             end)) in H;
    vm_compute in H; discriminate.
Qed.

(** ** Framing *)

Lemma ceil_div_lt a b k : 0 < b -> k < ceil_div a b <-> k * b < a.
Proof.
  intros Hb. unfold ceil_div. split.
  - intros Hk.
    assert (H1 : b * S k <= b * ((a + b - 1) / b)) by (apply Nat.mul_le_mono_l; lia).
    pose proof (Nat.Div0.mul_div_le (a + b - 1) b) as H2. lia.
  - intros Hk. apply (Nat.div_le_lower_bound (a + b - 1) b (S k)); lia.
Qed.

Lemma lookup_frame_at signal len start j :
  frame_at signal len start !! j =
    if decide (j < len) then Some (default 0%float (signal !! (start + j))) else None.
Proof.
  unfold frame_at. rewrite list_lookup_fmap. case_decide.
  - rewrite lookup_seq_lt by assumption. reflexivity.
  - rewrite lookup_seq_ge by lia. reflexivity.
Qed.

Section Framer.

Context (this : AudioProcessor).

(** What one turn of the loop pushes. *)
Lemma loop_frame (signal : Tensor1D) start :
  start < length signal ->
  (let end_ := Nat.min (start + frameLength this) (length signal) in
   if end_ - start <? frameLength this then
     tf.pad1d (tf.slice1d signal start (end_ - start)) 0
       (frameLength this - (end_ - start))
   else tf.slice1d signal start (frameLength this))
  = frame_at signal (frameLength this) start.
Proof.
  intros Hstart. cbv zeta. apply list_eq. intros j. rewrite lookup_frame_at.
  destruct (Nat.ltb_spec (Nat.min (start + frameLength this) (length signal) - start)
              (frameLength this)) as [Hshort|Hfull].
  - (* the last samples, padded *)
    unfold tf.pad1d, tf.slice1d. simpl app.
    replace (Nat.min (start + frameLength this) (length signal) - start)
      with (length signal - start) in * by lia.
    rewrite take_ge by (rewrite length_drop; lia).
    rewrite lookup_app, lookup_drop.
    destruct (signal !! (start + j)) as [x|] eqn:E; [apply lookup_lt_Some in E|
                                                     apply lookup_ge_None_1 in E].
    + rewrite decide_True by lia. reflexivity.
    + rewrite length_drop. case_decide.
      * rewrite lookup_replicate_2 by lia. reflexivity.
      * apply lookup_ge_None_2. rewrite length_replicate. lia.
  - unfold tf.slice1d. rewrite lookup_take, lookup_drop. case_decide; [|reflexivity].
    destruct (lookup_lt_is_Some_2 signal (start + j) ltac:(lia)) as [x ->]. reflexivity.
Qed.

Lemma frame_loop_spec (signal : Tensor1D) : forall todo fuel k frames,
  0 < frameStep this ->
  todo = ceil_div (length signal) (frameStep this) - k ->
  k <= ceil_div (length signal) (frameStep this) ->
  todo < fuel ->
  frame_loop this fuel signal (k * frameStep this) frames
  = Return (frames ++ ((fun i => frame_at signal (frameLength this) (i * frameStep this))
                       <$> seq k todo)).
Proof.
  induction todo as [|todo IH]; intros fuel k frames Hstep Htodo Hk Hfuel;
    (destruct fuel as [|fuel]; [lia|]); cbn [frame_loop].
  - assert (Hstop : ~ k * frameStep this < length signal)
      by (rewrite <- ceil_div_lt by assumption; lia).
    destruct (Nat.ltb_spec (k * frameStep this) (length signal)); [lia|].
    simpl. rewrite app_nil_r. reflexivity.
  - assert (Hgo : k * frameStep this < length signal)
      by (rewrite <- ceil_div_lt by assumption; lia).
    destruct (Nat.ltb_spec (k * frameStep this) (length signal)); [|lia].
    pose proof (loop_frame signal (k * frameStep this) Hgo) as Hframe.
    cbv zeta in Hframe. rewrite Hframe.
    replace (k * frameStep this + frameStep this) with (S k * frameStep this)
      by (simpl; lia).
    rewrite (IH fuel (S k)) by (assumption || lia).
    rewrite <- app_assoc. reflexivity.
Qed.

(** On the empty waveform the loop pushes no frame and [tf.stack] refuses
    the empty list. *)
Lemma frame_empty fuel : frame this (S fuel) [] = Throw tf.stack_error.
Proof. reflexivity. Qed.

Lemma frame_empty_never_returns fuel frames : frame this fuel [] <> Return frames.
Proof. destruct fuel; discriminate. Qed.

(** The frames of a waveform that has samples, in closed form. *)
Lemma frame_closed_form (signal : Tensor1D) fuel :
  0 < frameStep this -> 0 < length signal -> length signal < fuel ->
  frame this fuel signal
  = Return ((fun i => frame_at signal (frameLength this) (i * frameStep this))
            <$> seq 0 (ceil_div (length signal) (frameStep this))).
Proof.
  intros Hstep Hpos Hfuel.
  assert (Hceil : ceil_div (length signal) (frameStep this) <= length signal).
  { destruct (Nat.le_gt_cases (ceil_div (length signal) (frameStep this)) (length signal))
      as [|Hgt]; [assumption|].
    apply ceil_div_lt in Hgt; [|assumption]. nia. }
  assert (Hone : 0 < ceil_div (length signal) (frameStep this))
    by (apply ceil_div_lt; [assumption|lia]).
  unfold frame.
  pose proof (frame_loop_spec signal (ceil_div (length signal) (frameStep this)) fuel 0 []
                Hstep ltac:(lia) ltac:(lia) ltac:(lia)) as Hloop.
  simpl (0 * _) in Hloop. rewrite Hloop, bind_Return.
  destruct (ceil_div (length signal) (frameStep this)); [lia|]. reflexivity.
Qed.

Lemma length_frame_at signal len start : length (frame_at signal len start) = len.
Proof. unfold frame_at. rewrite length_fmap, length_seq. reflexivity. Qed.

(** C5, for a waveform that has samples.  With a positive step, [frame]
    returns [ceil (L / frameStep)] frames; frame [k] starts at offset
    [k * frameStep], which is below [L], has exactly [frameLength] samples,
    and holds the samples from its offset on, with zeros where the waveform
    has ended. *)
Theorem frame_count_and_padding (signal : Tensor1D) fuel :
  0 < frameStep this -> 0 < length signal -> length signal < fuel ->
  exists frames,
    frame this fuel signal = Return frames
    ∧ length frames = ceil_div (length signal) (frameStep this)
    ∧ forall k row, frames !! k = Some row ->
        k * frameStep this < length signal
        ∧ length row = frameLength this
        ∧ forall j, j < frameLength this ->
            row !! j = Some (default 0%float (signal !! (k * frameStep this + j))).
Proof.
  intros Hstep Hpos Hfuel. eexists. split; [apply frame_closed_form; assumption|].
  split.
  - rewrite length_fmap, length_seq. reflexivity.
  - intros k row Hrow. rewrite list_lookup_fmap in Hrow.
    destruct (seq 0 _ !! k) as [i|] eqn:Ei; [|discriminate].
    apply lookup_seq in Ei as [-> Hk]. simpl in Hrow. injection Hrow as <-.
    split; [apply ceil_div_lt; assumption|].
    split; [apply length_frame_at|].
    intros j Hj. rewrite lookup_frame_at, decide_True by assumption. reflexivity.
Qed.

End Framer.

Lemma frame_count_and_padding_witness :
  0 < frameStep new_AudioProcessor ∧ 0 < length (replicate 1000 1%float) ∧ 1000 < 1001
  ∧ exists frames,
      frame new_AudioProcessor 1001 (replicate 1000 1%float) = Return frames
      ∧ length frames = 7.
Proof.
  split; [vm_compute; lia|]. split; [vm_compute; lia|]. split; [lia|].
  destruct (frame_count_and_padding new_AudioProcessor (replicate 1000 1%float) 1001
              ltac:(vm_compute; lia) ltac:(rewrite length_replicate; lia)
              ltac:(rewrite length_replicate; lia))
    as (frames & Hframes & Hlen & _).
  exists frames. split; [exact Hframes|]. rewrite Hlen. reflexivity.
Defined.

(** C5 as stated fails on the empty waveform: the loop pushes no frame,
    [tf.stack] throws on the empty list, and [frame] throws instead of
    returning [ceil (0 / 160) = 0] frames. *)
Lemma frame_empty_waveform_throws :
  ceil_div 0 (frameStep new_AudioProcessor) = 0
  ∧ frame new_AudioProcessor 1 [] = Throw tf.stack_error
  ∧ forall fuel frames, frame new_AudioProcessor fuel [] <> Return frames.
Proof.
  split; [reflexivity|]. split; [reflexivity|].
  intros fuel frames. destruct fuel; discriminate.
Qed.

(** ** The cepstral path *)

Section Cepstrum.

Context (B : Backend) (this : AudioProcessor).

Lemma length_hammingWindow n : length (tf.hammingWindow B n) = n.
Proof. unfold tf.hammingWindow. rewrite length_fmap, length_seq. reflexivity. Qed.

(** Every row of the power spectrum has the bins of its own frame: the
    transform runs on the frame as it is. *)
Lemma lfcc_powerSpectrum_rows (frames : Tensor2D) :
  length (lfcc_powerSpectrum B this frames) = length frames
  ∧ forall i frame row,
      frames !! i = Some frame ->
      lfcc_powerSpectrum B this frames !! i = Some row ->
      length row = bins this (length frame).
Proof.
  unfold lfcc_powerSpectrum, tf.div_scalar, tf.square, tf.abs, tf.rfft, tf.mul_rows.
  cbv zeta. split; [rewrite !length_fmap; reflexivity|].
  intros i frame row Hframe Hrow.
  rewrite !list_lookup_fmap, Hframe in Hrow. simpl in Hrow. injection Hrow as <-.
  rewrite !length_fmap, length_seq, length_zip_with, length_hammingWindow.
  reflexivity.
Qed.

(** C7.  In [computeLFCC] the 400-sample frames go to [tf.spectral.rfft] as
    they are, without an [fftLength]: every row of the power spectrum has
    400 / 2 + 1 = 201 bins, not the 512 / 2 + 1 = 257 of a transform of
    size [fftSize]; [fftSize] only divides the squared magnitudes. *)
Theorem lfcc_powerSpectrum_bins (frames : Tensor2D) :
  Forall (fun frame => length frame = 400) frames ->
  Forall (fun row => length row = 201 ∧ length row <> 512 / 2 + 1)
    (lfcc_powerSpectrum B new_AudioProcessor frames).
Proof.
  intros Hframes. apply Forall_lookup_2. intros i row Hrow.
  unfold lfcc_powerSpectrum, tf.div_scalar, tf.square, tf.abs, tf.rfft, tf.mul_rows in Hrow.
  cbv zeta in Hrow. rewrite !list_lookup_fmap in Hrow.
  destruct (frames !! i) as [frame|] eqn:Hframe; [|discriminate].
  pose proof (Forall_lookup_1 _ _ _ _ Hframes Hframe) as H400. simpl in H400.
  simpl in Hrow. injection Hrow as <-.
  rewrite !length_fmap, length_seq, length_zip_with, length_hammingWindow, H400.
  split; [reflexivity|]. vm_compute. lia.
Qed.

(** *** Batches

    [computeLFCC] refuses a batch without rows.  On any other batch it works
    row by row, except that [dct] sizes its matrix by the row length of the
    batch it is given. *)

Lemma computeLFCC_empty : computeLFCC B this [] = Throw tf.reshape_error.
Proof. reflexivity. Qed.

Lemma computeLFCC_eq frame frames :
  computeLFCC B this (frame :: frames) = Return (lfcc_rows B this (frame :: frames)).
Proof. reflexivity. Qed.

Lemma computeLFCC_nonempty (batch : Tensor2D) :
  batch <> [] -> computeLFCC B this batch = Return (lfcc_rows B this batch).
Proof. destruct batch; [done|]. intros _. apply computeLFCC_eq. Qed.

Lemma lfcc_with_cons numBins frame frames :
  lfcc_with B this numBins (frame :: frames)
  = lfcc_row B this numBins frame :: lfcc_with B this numBins frames.
Proof. reflexivity. Qed.

Lemma lfcc_with_app numBins (l1 l2 : Tensor2D) :
  lfcc_with B this numBins (l1 ++ l2)
  = lfcc_with B this numBins l1 ++ lfcc_with B this numBins l2.
Proof.
  induction l1 as [|frame l1 IH]; [reflexivity|].
  rewrite <- app_comm_cons, !lfcc_with_cons, IH. reflexivity.
Qed.

Lemma length_lfcc_with numBins (frames : Tensor2D) :
  length (lfcc_with B this numBins frames) = length frames.
Proof.
  induction frames as [|frame frames IH]; [reflexivity|].
  rewrite lfcc_with_cons. simpl. rewrite IH. reflexivity.
Qed.

Lemma length_lfcc_row numBins frame :
  length (lfcc_row B this numBins frame) = Nat.min (numCoeffs this) numBins.
Proof.
  unfold lfcc_row, lfcc_with, tf.slice_cols, tf.matMul, logPowerSpectrum, tf.log,
    tf.add_scalar, lfcc_powerSpectrum, tf.div_scalar, tf.square, tf.abs, tf.rfft,
    tf.mul_rows.
  cbv zeta. rewrite !fmap_cons. cbn [lookup list_lookup default]. unfold id.
  rewrite length_take, !length_fmap, length_seq. reflexivity.
Qed.

Lemma Forall_lfcc_with numBins (frames : Tensor2D) :
  Forall (fun row => length row = Nat.min (numCoeffs this) numBins)
    (lfcc_with B this numBins frames).
Proof.
  induction frames as [|frame frames IH]; [constructor|].
  rewrite lfcc_with_cons. constructor; [apply length_lfcc_row|exact IH].
Qed.

Lemma shape1_logPowerSpectrum frame frames :
  tf.shape1 (logPowerSpectrum B this (frame :: frames)) = bins this (length frame).
Proof.
  unfold logPowerSpectrum, tf.log, tf.add_scalar, lfcc_powerSpectrum, tf.div_scalar,
    tf.square, tf.abs, tf.rfft, tf.mul_rows, bins. cbv zeta. rewrite !fmap_cons.
  cbn [tf.shape1].
  rewrite !length_fmap, length_seq, length_zip_with, length_hammingWindow. reflexivity.
Qed.

(** On a batch of frames of one length [dct] has the size of that length. *)
Lemma computeLFCC_uniform len (batch : Tensor2D) :
  batch <> [] -> Forall (fun frame => length frame = len) batch ->
  computeLFCC B this batch = Return (lfcc_with B this (bins this len) batch).
Proof.
  intros Hne Hlen. destruct batch as [|frame rest]; [done|].
  rewrite computeLFCC_eq. unfold lfcc_rows.
  rewrite shape1_logPowerSpectrum, (Forall_inv Hlen). reflexivity.
Qed.

(** ... and the coefficients of each frame are those it gets in a batch of
    its own. *)
Lemma lfcc_with_own_batch len (batch : Tensor2D) :
  Forall (fun frame => length frame = len) batch ->
  Forall2 (fun frame row => computeLFCC B this [frame] = Return [row])
    batch (lfcc_with B this (bins this len) batch).
Proof.
  induction batch as [|frame rest IH]; intros Hlen; [constructor|].
  rewrite lfcc_with_cons. constructor; [|apply IH, (Forall_inv_tail Hlen)].
  rewrite (computeLFCC_uniform len);
    [reflexivity|done|constructor; [exact (Forall_inv Hlen)|constructor]].
Qed.

Lemma ceil_div_le a b : 0 < b -> ceil_div a b <= a.
Proof.
  intros Hb. destruct (Nat.le_gt_cases (ceil_div a b) a) as [|Hgt]; [assumption|].
  apply ceil_div_lt in Hgt; [|assumption]. nia.
Qed.

Lemma take_min_length {A : Type} (l : list A) n : take (Nat.min n (length l)) l = take n l.
Proof.
  destruct (Nat.le_gt_cases n (length l)).
  - rewrite Nat.min_l by assumption. reflexivity.
  - rewrite Nat.min_r, !take_ge by lia. reflexivity.
Qed.

(** The loop of [extractFeatures] with batches of [b] frames. *)
Lemma batch_loop_spec len b (frames : Tensor2D) :
  Forall (fun frame => length frame = len) frames -> 0 < b ->
  forall fuel i acc,
    length frames - i < fuel ->
    exists acc',
      batch_loop B (with_batchSize this b) fuel frames i acc = Return acc'
      ∧ mjoin acc' = mjoin acc ++ lfcc_with B this (bins this len) (drop i frames).
Proof.
  intros Hlen Hb. induction fuel as [|fuel IH]; intros i acc Hfuel; [lia|].
  cbn [batch_loop]. unfold tf.shape0. cbn [batchSize with_batchSize].
  destruct (Nat.ltb_spec i (length frames)) as [Hi|Hi].
  - change (computeLFCC B (with_batchSize this b)) with (computeLFCC B this).
    unfold tf.slice_rows. rewrite <- (length_drop frames i), take_min_length.
    rewrite (computeLFCC_uniform len), bind_Return.
    + destruct (IH (i + b)
                 (acc ++ [lfcc_with B this (bins this len) (take b (drop i frames))])
                 ltac:(lia)) as (acc' & Hloop & Hjoin).
      exists acc'. split; [exact Hloop|]. rewrite Hjoin.
      rewrite join_app. simpl mjoin. rewrite app_nil_r, <- app_assoc. f_equal.
      rewrite <- drop_drop, <- lfcc_with_app, take_drop. reflexivity.
    + intros Hnil. apply (f_equal length) in Hnil.
      rewrite length_take, length_drop in Hnil. simpl in Hnil. lia.
    + apply Forall_take, Forall_drop, Hlen.
  - exists acc. split; [reflexivity|]. rewrite drop_ge by lia. simpl.
    rewrite app_nil_r. reflexivity.
Qed.

(** The empty recording is rejected, whatever the batch size: [frame]
    throws before any batch is formed. *)
Lemma extractFeatures_empty fuel :
  extractFeatures B this (S fuel) [] = Throw tf.stack_error.
Proof. reflexivity. Qed.

(** [extractFeatures] on a recording that has samples, for any batch size. *)
Lemma extractFeatures_rowwise b (audioData : Float32Array) fuel :
  0 < frameStep this -> 0 < b -> 0 < length audioData -> length audioData < fuel ->
  extractFeatures B (with_batchSize this b) fuel audioData
  = Return (lfcc_with B this (bins this (frameLength this))
              ((fun i => frame_at audioData (frameLength this) (i * frameStep this))
               <$> seq 0 (ceil_div (length audioData) (frameStep this)))).
Proof.
  intros Hstep Hb Hpos Hfuel. unfold extractFeatures. cbv zeta.
  rewrite (frame_closed_form (with_batchSize this b)) by assumption.
  cbn [frameLength frameStep with_batchSize]. rewrite bind_Return.
  set (frames := _ <$> seq 0 _).
  assert (Hlen : Forall (fun frame => length frame = frameLength this) frames).
  { apply Forall_fmap, Forall_forall. intros k _. apply length_frame_at. }
  assert (Hrows : 0 < length frames).
  { unfold frames. rewrite length_fmap, length_seq. apply ceil_div_lt; [assumption|lia]. }
  destruct (batch_loop_spec (frameLength this) b frames Hlen Hb fuel 0 [])
    as (acc' & Hloop & Hjoin).
  { unfold frames. rewrite length_fmap, length_seq.
    pose proof (ceil_div_le (length audioData) (frameStep this) Hstep). lia. }
  rewrite Hloop, bind_Return. clearbody frames. rewrite drop_0 in Hjoin. simpl in Hjoin.
  destruct acc' as [|t ts].
  - apply (f_equal length) in Hjoin. rewrite length_lfcc_with in Hjoin.
    simpl in Hjoin. lia.
  - unfold tf.concat. rewrite Hjoin. reflexivity.
Qed.

(** C6.  Whatever the batch size, [extractFeatures] does the same: any two
    batch sizes, 1 and 32 among them, give the same result.  On a recording
    that has samples it returns, row after row in frame order, the
    coefficients each frame gets in a batch of its own, and so does
    [computeLFCC] on any batch made of these frames. *)
Theorem batch_size_invariance (audioData : Float32Array) fuel :
  0 < frameStep this -> length audioData < fuel ->
  (forall b, 0 < b ->
     extractFeatures B (with_batchSize this b) fuel audioData
     = extractFeatures B (with_batchSize this 1) fuel audioData)
  ∧ extractFeatures B (with_batchSize this 1) fuel audioData
    = extractFeatures B (with_batchSize this 32) fuel audioData
  ∧ (0 < length audioData ->
     exists frames rows,
       frame this fuel audioData = Return frames
       ∧ Forall2 (fun frame row => computeLFCC B this [frame] = Return [row]) frames rows
       ∧ (forall b, 0 < b ->
            extractFeatures B (with_batchSize this b) fuel audioData = Return rows)
       ∧ (forall batch : Tensor2D,
            batch <> [] -> (forall frame, frame ∈ batch -> frame ∈ frames) ->
            exists batchRows,
              computeLFCC B this batch = Return batchRows
              ∧ Forall2 (fun frame row => computeLFCC B this [frame] = Return [row])
                  batch batchRows)).
Proof.
  intros Hstep Hfuel.
  assert (Hall : forall b, 0 < b ->
     extractFeatures B (with_batchSize this b) fuel audioData
     = extractFeatures B (with_batchSize this 1) fuel audioData).
  { intros b Hb. destruct (decide (length audioData = 0)) as [Hnil|Hne].
    - apply length_zero_iff_nil in Hnil. subst audioData.
      destruct fuel as [|fuel]; [simpl in Hfuel; lia|]. reflexivity.
    - rewrite !extractFeatures_rowwise by (assumption || lia). reflexivity. }
  split; [exact Hall|]. split; [symmetry; apply Hall; lia|].
  intros Hpos. eexists _, _. split; [apply frame_closed_form; assumption|].
  set (frames := _ <$> seq 0 _).
  assert (Hlen : Forall (fun frame => length frame = frameLength this) frames).
  { apply Forall_fmap, Forall_forall. intros k _. apply length_frame_at. }
  split; [exact (lfcc_with_own_batch (frameLength this) frames Hlen)|].
  split; [intros b Hb; apply extractFeatures_rowwise; assumption|].
  intros batch Hne Hsub.
  assert (Hbatch : Forall (fun frame => length frame = frameLength this) batch).
  { apply Forall_forall. intros frame Hframe.
    apply (proj1 (Forall_forall _ _) Hlen frame (Hsub frame Hframe)). }
  exists (lfcc_with B this (bins this (frameLength this)) batch).
  split; [apply computeLFCC_uniform; assumption|apply lfcc_with_own_batch; exact Hbatch].
Qed.

End Cepstrum.

Lemma lfcc_powerSpectrum_bins_witness :
  Forall (fun frame => length frame = 400) [replicate 400 1%float]
  ∧ Forall (fun row => length row = 201 ∧ length row <> 512 / 2 + 1)
      (lfcc_powerSpectrum Sample.backend new_AudioProcessor [replicate 400 1%float]).
Proof.
  assert (H : Forall (fun frame : list float => length frame = 400) [replicate 400 1%float])
    by (repeat constructor).
  split; [exact H|].
  exact (lfcc_powerSpectrum_bins Sample.backend [replicate 400 1%float] H).
Defined.

Lemma batch_size_invariance_witness :
  0 < frameStep new_AudioProcessor ∧ 1000 < 1001
  ∧ extractFeatures Sample.backend (with_batchSize new_AudioProcessor 1) 1001
      (replicate 1000 1%float)
    = extractFeatures Sample.backend (with_batchSize new_AudioProcessor 32) 1001
        (replicate 1000 1%float).
Proof.
  split; [vm_compute; lia|]. split; [lia|].
  destruct (batch_size_invariance Sample.backend new_AudioProcessor (replicate 1000 1%float)
              1001 ltac:(vm_compute; lia) ltac:(rewrite length_replicate; lia))
    as (_ & Heq & _).
  exact Heq.
Defined.

(** ** Concrete runs *)

Example FFT_one_sample_run : FFT Sample.Math 1 [5]%float = Return [5]%float.
Proof. reflexivity. Qed.

Example FFT_two_samples_run :
  FFT Sample.Math 2 [1; 2]%float = Return [nan; nan; nan; nan].
Proof. vm_compute. reflexivity. Qed.

Example FFT_three_samples_run :
  FFT Sample.Math 1 [1; 2; 3]%float = Throw precondition_error.
Proof. vm_compute. reflexivity. Qed.

Example FFT_no_samples_run : FFT Sample.Math 50 [] = OutOfFuel.
Proof. vm_compute. reflexivity. Qed.

Example powerSpectrum_impulse_run :
  powerSpectrum Sample.Math 3 [1; 0; 0; 0]%float = Return [nan; nan; nan].
Proof. vm_compute. reflexivity. Qed.

Example lowPassFilter_run :
  lowPassFilter Sample.Math 3 [1; 2]%float 0.5%float = Return [nan; nan].
Proof. vm_compute. reflexivity. Qed.

Example preEmphasis_run :
  preEmphasis [1; 2; 4]%float 0.5%float = [1; 1.5; 3]%float.
Proof. vm_compute. reflexivity. Qed.

Example frame_run :
  frame {| sampleRate := 8; frameLength := 4; frameStep := 3;
           fftSize := 8; numCoeffs := 2; batchSize := 2 |} 8
    [1; 2; 3; 4; 5; 6; 7]%float
  = Return [[1; 2; 3; 4]; [4; 5; 6; 7]; [7; 0; 0; 0]]%float.
Proof. vm_compute. reflexivity. Qed.

Example frame_empty_run : frame new_AudioProcessor 1 [] = Throw tf.stack_error.
Proof. reflexivity. Qed.

Example extractFeatures_empty_run :
  extractFeatures Sample.backend new_AudioProcessor 1 [] = Throw tf.stack_error.
Proof. reflexivity. Qed.

Example computeLFCC_empty_run :
  computeLFCC Sample.backend new_AudioProcessor [] = Throw tf.reshape_error.
Proof. reflexivity. Qed.

Example extractFeatures_shape_run :
  match extractFeatures Sample.backend
          {| sampleRate := 8; frameLength := 8; frameStep := 4;
             fftSize := 16; numCoeffs := 3; batchSize := 2 |} 21
          (replicate 20 1%float) with
  | Return lfcc => (length lfcc, length <$> lfcc) = (5, replicate 5 3)
  | _ => False
  end.
Proof. vm_compute. reflexivity. Qed.

(** * Further properties of signalProcessing.ts *)

(** ** The transform and what is built on it *)

Section TransformUsers.

Context (Math : MathObject).

Lemma FFT_empty fuel : FFT Math fuel [] = OutOfFuel.
Proof.
  induction fuel as [|fuel IH]; [reflexivity|].
  rewrite FFT_eq. simpl. change (new_Float32Array (trunc_half 0)) with (@nil float).
  rewrite IH. reflexivity.
Qed.

(** X1.  On every input of two or more samples (a power of two of them)
    [FFT] returns a buffer of [2 * N] numbers every one of which is NaN,
    whatever the samples and whatever [Math.cos] and [Math.sin] return. *)
Theorem FFT_all_nan k (signal : Float32Array) fuel :
  length signal = 2 ^ S k -> S k < fuel ->
  exists spectrum,
    FFT Math fuel signal = Return spectrum
    ∧ length spectrum = 2 * length signal
    ∧ forall i, i < 2 * length signal -> spectrum !! i = Some nan.
Proof.
  intros Hlen Hfuel. exists (replicate (2 ^ S k * 2) nan).
  split; [exact (FFT_pow2 Math (S k) signal fuel Hlen Hfuel)|].
  split; [rewrite length_replicate, Hlen; lia|].
  intros i Hi. apply lookup_replicate_2. lia.
Qed.

(** X2.  For a non-empty input (of fewer than 2^31 samples) [FFT] throws
    its error exactly when the length is not a power of two, and then it
    throws at once, before any recursive call. *)
Theorem FFT_throws_exactly (signal : Float32Array) :
  0 < length signal -> (Z.of_nat (length signal) < 2 ^ 31)%Z ->
  ((exists fuel, FFT Math fuel signal = Throw precondition_error)
   <-> ~ power_of_two (length signal))
  ∧ (~ power_of_two (length signal) ->
     forall fuel, FFT Math (S fuel) signal = Throw precondition_error).
Proof.
  intros Hpos Hlt. split; [apply FFT_throws_iff; assumption|].
  intros Hnp fuel. apply FFT_rejects; assumption.
Qed.

(** X3.  The operations built on [FFT] do not catch its error: on a
    non-empty input whose length is not a power of two, [powerSpectrum],
    both filters, [spectralCentroid] and [spectralFlatness] throw the error
    of [FFT]. *)
Theorem FFT_error_propagates (signal : Float32Array) cutoffFreq sampleRate fuel :
  0 < length signal -> (Z.of_nat (length signal) < 2 ^ 31)%Z ->
  ~ power_of_two (length signal) ->
  powerSpectrum Math (S fuel) signal = Throw precondition_error
  ∧ lowPassFilter Math (S fuel) signal cutoffFreq = Throw precondition_error
  ∧ highPassFilter Math (S fuel) signal cutoffFreq = Throw precondition_error
  ∧ spectralCentroid Math (S fuel) signal sampleRate = Throw precondition_error
  ∧ spectralFlatness Math (S fuel) signal = Throw precondition_error.
Proof.
  intros Hpos Hlt Hnp.
  pose proof (FFT_rejects Math fuel signal Hpos Hlt Hnp) as HFFT.
  assert (Hpower : powerSpectrum Math (S fuel) signal = Throw precondition_error)
    by (unfold powerSpectrum; rewrite HFFT; reflexivity).
  split; [|split; [|split; [|split]]].
  - exact Hpower.
  - unfold lowPassFilter. cbv zeta. rewrite HFFT. reflexivity.
  - unfold highPassFilter. cbv zeta. rewrite HFFT. reflexivity.
  - unfold spectralCentroid. rewrite Hpower. reflexivity.
  - unfold spectralFlatness. rewrite Hpower. reflexivity.
Qed.

(** X4.  On the empty signal none of these operations finishes: each calls
    [FFT], which recurses on the empty signal without end. *)
Theorem empty_signal_never_finishes cutoffFreq sampleRate fuel :
  powerSpectrum Math fuel [] = OutOfFuel
  ∧ lowPassFilter Math fuel [] cutoffFreq = OutOfFuel
  ∧ highPassFilter Math fuel [] cutoffFreq = OutOfFuel
  ∧ spectralCentroid Math fuel [] sampleRate = OutOfFuel
  ∧ spectralFlatness Math fuel [] = OutOfFuel.
Proof.
  assert (Hpower : powerSpectrum Math fuel [] = OutOfFuel)
    by (unfold powerSpectrum; rewrite FFT_empty; reflexivity).
  split; [|split; [|split; [|split]]].
  - exact Hpower.
  - unfold lowPassFilter. cbv zeta. rewrite FFT_empty. reflexivity.
  - unfold highPassFilter. cbv zeta. rewrite FFT_empty. reflexivity.
  - unfold spectralCentroid. rewrite Hpower. reflexivity.
  - unfold spectralFlatness. rewrite Hpower. reflexivity.
Qed.

(** X5.  Both filters return, for every input of two or more samples (a
    power of two of them) and every cutoff, as many NaNs as there are
    samples: nothing of the signal comes through. *)
Theorem filters_return_nan k (signal : Float32Array) cutoffFreq fuel :
  length signal = 2 ^ S k -> S (S k) < fuel ->
  lowPassFilter Math fuel signal cutoffFreq = Return (replicate (length signal) nan)
  ∧ highPassFilter Math fuel signal cutoffFreq = Return (replicate (length signal) nan).
Proof.
  intros Hlen Hfuel. rewrite Hlen. split.
  - apply lowPassFilter_nan; assumption.
  - apply highPassFilter_nan; assumption.
Qed.

(** X6.  [spectralCentroid] and [spectralFlatness] return 0 for every frame
    of power-of-two length, whatever its samples and the sample rate: the
    power spectrum is NaN and both final guards ([> 0]) fail on NaN. *)
Theorem spectral_features_always_zero k (signal : Float32Array) sampleRate fuel :
  length signal = 2 ^ k -> k < fuel ->
  spectralCentroid Math fuel signal sampleRate = Return 0%float
  ∧ spectralFlatness Math fuel signal = Return 0%float.
Proof.
  intros Hlen Hfuel. split.
  - apply (spectralCentroid_pow2 Math k); assumption.
  - apply (spectralFlatness_pow2 Math k); assumption.
Qed.

End TransformUsers.

Lemma FFT_all_nan_witness :
  length [3; 1; 4; 1]%float = 2 ^ 2 ∧ 2 < 3
  ∧ exists spectrum,
      FFT Sample.Math 3 [3; 1; 4; 1]%float = Return spectrum
      ∧ length spectrum = 8
      ∧ forall i, i < 8 -> spectrum !! i = Some nan.
Proof.
  split; [reflexivity|]. split; [lia|].
  exact (FFT_all_nan Sample.Math 1 [3; 1; 4; 1]%float 3 eq_refl ltac:(lia)).
Defined.

Lemma three_not_power_of_two : ~ power_of_two 3.
Proof.
  intros [k Hk]. destruct k as [|[|k]]; simpl in Hk; lia.
Qed.

Lemma FFT_throws_exactly_witness :
  0 < length [1; 2; 3]%float ∧ (Z.of_nat (length [1; 2; 3]%float) < 2 ^ 31)%Z
  ∧ forall fuel, FFT Sample.Math (S fuel) [1; 2; 3]%float = Throw precondition_error.
Proof.
  split; [simpl; lia|]. split; [simpl; lia|].
  exact (proj2 (FFT_throws_exactly Sample.Math [1; 2; 3]%float
                  ltac:(simpl; lia) ltac:(simpl; lia)) three_not_power_of_two).
Defined.

Lemma FFT_error_propagates_witness :
  0 < length [1; 2; 3]%float ∧ ~ power_of_two (length [1; 2; 3]%float)
  ∧ powerSpectrum Sample.Math 1 [1; 2; 3]%float = Throw precondition_error.
Proof.
  split; [simpl; lia|]. split; [exact three_not_power_of_two|].
  exact (proj1 (FFT_error_propagates Sample.Math [1; 2; 3]%float 0.25%float 16000%float 0
                  ltac:(simpl; lia) ltac:(simpl; lia) three_not_power_of_two)).
Defined.

Lemma filters_return_nan_witness :
  length [1; 2; 3; 4]%float = 2 ^ 2 ∧ 3 < 4
  ∧ lowPassFilter Sample.Math 4 [1; 2; 3; 4]%float 0.25%float
    = Return [nan; nan; nan; nan]
  ∧ highPassFilter Sample.Math 4 [1; 2; 3; 4]%float 0.25%float
    = Return [nan; nan; nan; nan].
Proof.
  split; [reflexivity|]. split; [lia|].
  exact (filters_return_nan Sample.Math 1 [1; 2; 3; 4]%float 0.25%float 4
           eq_refl ltac:(lia)).
Defined.

Lemma spectral_features_always_zero_witness :
  length [0.5; -0.25; 1; 0.75]%float = 2 ^ 2 ∧ 2 < 3
  ∧ spectralCentroid Sample.Math 3 [0.5; -0.25; 1; 0.75]%float 16000%float = Return 0%float
  ∧ spectralFlatness Sample.Math 3 [0.5; -0.25; 1; 0.75]%float = Return 0%float.
Proof.
  split; [reflexivity|]. split; [lia|].
  exact (spectral_features_always_zero Sample.Math 2 [0.5; -0.25; 1; 0.75]%float
           16000%float 3 eq_refl ltac:(lia)).
Defined.

(** ** Signs of Numbers

    [not_negative x]: [x] is +0, a positive number, +Infinity or NaN; no
    such [x] is below 0. *)

Definition sf_not_negative (s : spec_float) : Prop :=
  match s with
  | S754_nan => True
  | S754_zero b | S754_infinity b | S754_finite b _ _ => b = false
  end.

Definition not_negative (x : float) : Prop := sf_not_negative (Prim2SF x).

Module Sign.

Lemma round_aux m e l : sf_not_negative (binary_round_aux prec emax false m e l).
Proof.
  unfold binary_round_aux.
  destruct (shr_fexp prec emax m e l) as [mrs' e'].
  destruct (shr_fexp prec emax _ e' loc_Exact) as [mrs'' e''].
  destruct (shr_m mrs''); [reflexivity| |exact I].
  destruct (Z.leb e'' _); reflexivity.
Qed.

Lemma round m e : sf_not_negative (binary_round prec emax false m e).
Proof. unfold binary_round. destruct (shl_align m e _). apply round_aux. Qed.

Lemma normalize z e : (0 <= z)%Z -> sf_not_negative (binary_normalize prec emax z e false).
Proof. intros Hz. destruct z; [reflexivity|apply round|lia]. Qed.

Lemma mul_self x : not_negative (x * x).
Proof.
  unfold not_negative. rewrite mul_spec. unfold SF64mul.
  destruct (Prim2SF x) as [b|b| |b m e]; simpl;
    try exact I; try (destruct b; reflexivity).
  destruct b; apply round_aux.
Qed.

Lemma add x y : not_negative x -> not_negative y -> not_negative (x + y).
Proof.
  unfold not_negative. rewrite add_spec. unfold SF64add.
  destruct (Prim2SF x) as [bx|bx| |bx mx ex], (Prim2SF y) as [b_y|b_y| |b_y my ey];
    simpl; intros Hx Hy; subst; try reflexivity; try exact I.
  apply normalize. unfold cond_Zopp. lia.
Qed.

Lemma div x y : not_negative x -> not_negative y -> not_negative (x / y).
Proof.
  unfold not_negative. rewrite div_spec. unfold SF64div.
  destruct (Prim2SF x) as [bx|bx| |bx mx ex], (Prim2SF y) as [b_y|b_y| |b_y my ey];
    simpl; intros Hx Hy; subst; try reflexivity; try exact I.
  destruct (SFdiv_core_binary prec emax (Z.pos mx) ex (Z.pos my) ey) as [[mz ez] lz].
  apply round_aux.
Qed.

Lemma not_below_zero x : not_negative x -> (x <? 0)%float = false.
Proof.
  unfold not_negative. rewrite ltb_spec. change (Prim2SF 0) with (S754_zero false).
  destruct (Prim2SF x) as [b|b| |b m e]; simpl; intros H; subst; reflexivity.
Qed.

Lemma of_SF s : sf_not_negative s -> not_negative (SF2Prim s).
Proof.
  unfold not_negative.
  destruct s as [b|b| |b m e]; intros H; simpl in H; subst; try reflexivity.
  unfold SF2Prim. rewrite FloatLemmas.Z_ldexp_spec, of_uint63_spec.
  set (z := Uint63.to_Z _).
  assert (Hz : (0 <= z)%Z) by apply Uint63.to_Z_bounded.
  pose proof (normalize z 0 Hz) as Hn.
  destruct (binary_normalize prec emax z 0 false) as [b|b| |b m' e'];
    simpl in Hn; subst; try reflexivity.
  apply round.
Qed.

Lemma of_Z z : (0 <= z)%Z -> not_negative (JS.of_Z z).
Proof. intros Hz. apply of_SF, normalize, Hz. Qed.

Lemma zero : not_negative 0.
Proof. reflexivity. Qed.

Lemma one : not_negative 1.
Proof. reflexivity. Qed.

End Sign.

(** ** The Number of a positive integer below 2^53 is a positive finite
       Number *)

Module Exact.

Lemma digits2_iter p q : digits2_pos (Pos.iter xO p q) = (digits2_pos p + q)%positive.
Proof.
  induction q as [|q IH] using Pos.peano_ind.
  - simpl. rewrite Pos.add_1_r. reflexivity.
  - rewrite Pos.iter_succ. simpl. rewrite IH, Pos.add_succ_r. reflexivity.
Qed.

Lemma digits2_lower p : (2 ^ (Z.pos (digits2_pos p) - 1) <= Z.pos p)%Z.
Proof.
  induction p as [p IH|p IH|]; simpl digits2_pos; [| |simpl; lia].
  - rewrite Pos2Z.inj_succ. replace (Z.succ (Z.pos (digits2_pos p)) - 1)%Z
      with (Z.succ (Z.pos (digits2_pos p) - 1)) by lia.
    rewrite Z.pow_succ_r by lia. lia.
  - rewrite Pos2Z.inj_succ. replace (Z.succ (Z.pos (digits2_pos p)) - 1)%Z
      with (Z.succ (Z.pos (digits2_pos p) - 1)) by lia.
    rewrite Z.pow_succ_r by lia. lia.
Qed.

Lemma digits2_small p : (Z.pos p < 2 ^ 53)%Z -> (Z.pos (digits2_pos p) <= 53)%Z.
Proof.
  intros Hp. destruct (Z.le_gt_cases (Z.pos (digits2_pos p)) 53) as [|Hgt]; [assumption|].
  pose proof (digits2_lower p) as Hl.
  assert (2 ^ 53 <= 2 ^ (Z.pos (digits2_pos p) - 1))%Z by (apply Z.pow_le_mono_r; lia).
  lia.
Qed.

Lemma round_aux_exact m e :
  Z.pos (digits2_pos m) = 53%Z -> (-1074 <= e <= 971)%Z ->
  binary_round_aux prec emax false (Z.pos m) e loc_Exact = S754_finite false m e.
Proof.
  intros Hd He. unfold binary_round_aux, shr_fexp, Zdigits2, fexp, SpecFloat.emin.
  rewrite Hd. unfold prec, emax.
  replace (Z.max (53 + e - 53) (3 - 1024 - 53) - e)%Z with 0%Z by lia.
  simpl. rewrite Hd.
  replace (Z.max (53 + e - 53) (3 - 1024 - 53) - e)%Z with 0%Z by lia.
  simpl. destruct (Z.leb_spec e (1024 - 53)); [reflexivity|lia].
Qed.

Lemma normalize_small p :
  (Z.pos p < 2 ^ 53)%Z ->
  exists m e, binary_normalize prec emax (Z.pos p) 0 false = S754_finite false m e
              ∧ valid_binary (S754_finite false m e) = true.
Proof.
  intros Hp. pose proof (digits2_small p Hp) as Hd.
  assert (Hvalid : forall m e, Z.pos (digits2_pos m) = 53%Z -> (-1074 <= e <= 971)%Z ->
            valid_binary (S754_finite false m e) = true).
  { intros m e Hm He. unfold SpecFloat.valid_binary, bounded, canonical_mantissa, fexp,
      SpecFloat.emin. rewrite Hm. unfold prec, emax.
    apply andb_true_intro. split; [apply Z.eqb_eq|apply Z.leb_le]; lia. }
  unfold binary_normalize, binary_round, shl_align, fexp, SpecFloat.emin, prec, emax.
  destruct (Z.max (Z.pos (digits2_pos p) + 0 - 53) (3 - 1024 - 53) - 0)%Z as [|q|q] eqn:Eq.
  - exists p, 0%Z. assert (Z.pos (digits2_pos p) = 53%Z) by lia.
    split; [apply round_aux_exact; lia|apply Hvalid; lia].
  - lia.
  - exists (Pos.iter xO p q), (Z.max (Z.pos (digits2_pos p) + 0 - 53) (3 - 1024 - 53)).
    assert (Z.pos (digits2_pos (Pos.iter xO p q)) = 53%Z)
      by (rewrite digits2_iter, Pos2Z.inj_add; lia).
    split; [apply round_aux_exact; lia|apply Hvalid; lia].
Qed.

Lemma of_Z_finite z :
  (0 < z < 2 ^ 53)%Z -> exists m e, Prim2SF (JS.of_Z z) = S754_finite false m e.
Proof.
  intros Hz. destruct z as [|p|p]; try lia.
  destruct (normalize_small p ltac:(lia)) as (m & e & Hn & Hv).
  exists m, e. unfold JS.of_Z. rewrite Hn. apply Prim2SF_SF2Prim, Hv.
Qed.

(** 0 divided by a positive finite Number is +0. *)
Lemma zero_div z : (0 < z < 2 ^ 53)%Z -> (0 / JS.of_Z z)%float = 0%float.
Proof.
  intros Hz. destruct (of_Z_finite z Hz) as (m & e & H).
  apply Prim2SF_inj. rewrite div_spec, H. reflexivity.
Qed.

End Exact.

(** ** Energy and zero crossings *)

(** A loop keeps an invariant that may mention the counter. *)
Lemma for_range_invariant_at {S : Type} (P : nat -> S -> Prop) lo count
    (body : nat -> S -> S) s :
  P lo s ->
  (forall i s, lo <= i < lo + count -> P i s -> P (Datatypes.S i) (body i s)) ->
  P (lo + count) (for_range lo count body s).
Proof.
  intros Hs Hbody. induction count as [|count IH].
  - rewrite Nat.add_0_r. exact Hs.
  - rewrite for_range_S, Nat.add_succ_r. apply Hbody; [lia|].
    apply IH. intros i s' Hi. apply Hbody. lia.
Qed.

Lemma leb_not_ltb a : (0 <=? a)%float = true -> (a <? 0)%float = false.
Proof.
  rewrite leb_spec, ltb_spec. change (Prim2SF 0) with (S754_zero false).
  destruct (Prim2SF a) as [[]|[]| |[] m e]; cbv [SFleb SFltb SFcompare];
    intros H; congruence.
Qed.

Lemma ltb_not_leb a : (a <? 0)%float = true -> (0 <=? a)%float = false.
Proof.
  rewrite leb_spec, ltb_spec. change (Prim2SF 0) with (S754_zero false).
  destruct (Prim2SF a) as [[]|[]| |[] m e]; cbv [SFleb SFltb SFcompare];
    intros H; congruence.
Qed.

(** X7.  [signalEnergy] is never negative: it is NaN or at least 0,
    whatever the samples; on the empty signal it is NaN (0 / 0). *)
Theorem signalEnergy_never_negative (signal : Float32Array) :
  (signalEnergy signal <? 0)%float = false
  ∧ (signal = [] -> signalEnergy signal = nan).
Proof.
  split; [|intros ->; reflexivity].
  apply Sign.not_below_zero. unfold signalEnergy. cbv zeta.
  apply Sign.div; [|apply Sign.of_Z; lia].
  apply (for_range_invariant not_negative); [apply Sign.zero|].
  intros i energy He. apply Sign.add; [exact He|apply Sign.mul_self].
Qed.

(** X8.  The energy of a silent signal (every sample +0 or -0) of at least
    one sample is exactly 0. *)
Theorem signalEnergy_silent (signal : Float32Array) :
  0 < length signal -> (Z.of_nat (length signal) < 2 ^ 53)%Z ->
  Forall (fun x => x = 0%float ∨ x = (-0)%float) signal ->
  signalEnergy signal = 0%float.
Proof.
  intros Hpos Hlt Hzero. unfold signalEnergy. cbv zeta.
  assert (Hsum : for_range 0 (length signal)
            (fun i energy => (energy + ToNumber (get signal i) * ToNumber (get signal i))%float)
            0%float = 0%float).
  { apply (for_range_invariant_at (fun _ energy => energy = 0%float) 0 (length signal));
      [reflexivity|].
    intros i energy Hi ->. unfold get.
    destruct (lookup_lt_is_Some_2 signal i ltac:(lia)) as [x Hx]. rewrite Hx.
    destruct (Forall_lookup_1 _ _ _ _ Hzero Hx) as [-> | ->]; reflexivity. }
  rewrite Hsum. apply Exact.zero_div. lia.
Qed.

(** X9.  One NaN sample makes the energy NaN. *)
Theorem signalEnergy_nan (signal : Float32Array) j :
  signal !! j = Some nan -> signalEnergy signal = nan.
Proof.
  intros Hj. unfold signalEnergy. cbv zeta.
  assert (Hsum : for_range 0 (length signal)
            (fun i energy => (energy + ToNumber (get signal i) * ToNumber (get signal i))%float)
            0%float = nan).
  { apply (for_range_invariant_at (fun i energy => j < i -> energy = nan) 0 (length signal)
             _ 0%float); [lia| |apply lookup_lt_Some in Hj; lia].
    intros i energy Hi IH Hlt. destruct (decide (i = j)) as [->|Hne].
    - unfold get. rewrite Hj. cbn [ToNumber]. rewrite NaN.mul_l. apply NaN.add_r.
    - rewrite IH by lia. apply NaN.add_l. }
  rewrite Hsum. apply NaN.div_l.
Qed.

(** Samples of one sign do not cross. *)
Lemma crosses_same_sign a b :
  ((0 <=? a)%float = true ∧ (0 <=? b)%float = true)
  ∨ ((a <? 0)%float = true ∧ (b <? 0)%float = true) ->
  crosses a b = false.
Proof.
  unfold crosses. intros [[Ha Hb]|[Ha Hb]].
  - rewrite (leb_not_ltb a Ha), (leb_not_ltb b Hb), Ha. reflexivity.
  - rewrite (ltb_not_leb a Ha), (ltb_not_leb b Hb), Ha. reflexivity.
Qed.

(** X10.  [zeroCrossingRate] is never negative (it is NaN or not below 0);
    for a single sample it is NaN (0 / 0) and for the empty signal it is -0
    (0 / -1). *)
Theorem zeroCrossingRate_never_negative (signal : Float32Array) :
  (zeroCrossingRate signal <? 0)%float = false
  ∧ (forall x, zeroCrossingRate [x] = nan)
  ∧ zeroCrossingRate [] = (-0)%float.
Proof.
  split; [|split; [intros x; reflexivity|reflexivity]].
  destruct signal as [|x rest]; [reflexivity|].
  apply Sign.not_below_zero. unfold zeroCrossingRate. cbv zeta.
  apply Sign.div; [|apply Sign.of_Z; simpl length; lia].
  apply (for_range_invariant not_negative); [apply Sign.zero|].
  intros i crossings Hc. destruct (crosses _ _); [|exact Hc].
  apply Sign.add; [exact Hc|apply Sign.one].
Qed.

(** X11.  A signal of two or more samples that are all non-negative, or all
    negative, has rate exactly 0. *)
Theorem zeroCrossingRate_one_sign (signal : Float32Array) :
  2 <= length signal -> (Z.of_nat (length signal) < 2 ^ 53)%Z ->
  Forall (fun x => (0 <=? x)%float = true) signal
  ∨ Forall (fun x => (x <? 0)%float = true) signal ->
  zeroCrossingRate signal = 0%float.
Proof.
  intros Hlen Hlt Hsign. unfold zeroCrossingRate. cbv zeta.
  assert (Hcount : for_range 1 (length signal - 1)
            (fun i crossings =>
               if crosses (ToNumber (get signal i)) (ToNumber (get signal (i - 1)))
               then (crossings + 1)%float else crossings)
            0%float = 0%float).
  { apply (for_range_invariant_at (fun _ crossings => crossings = 0%float) 1
             (length signal - 1)); [reflexivity|].
    intros i crossings Hi ->. unfold get.
    destruct (lookup_lt_is_Some_2 signal i ltac:(lia)) as [a Ha].
    destruct (lookup_lt_is_Some_2 signal (i - 1) ltac:(lia)) as [b Hb].
    rewrite Ha, Hb. simpl ToNumber. rewrite crosses_same_sign; [reflexivity|].
    destruct Hsign as [Hs|Hs]; [left|right];
      split; [exact (Forall_lookup_1 _ _ _ _ Hs Ha)|exact (Forall_lookup_1 _ _ _ _ Hs Hb)
             |exact (Forall_lookup_1 _ _ _ _ Hs Ha)|exact (Forall_lookup_1 _ _ _ _ Hs Hb)]. }
  rewrite Hcount. apply Exact.zero_div. lia.
Qed.

Lemma signalEnergy_silent_witness :
  0 < length [0; -0; 0]%float ∧ signalEnergy [0; -0; 0]%float = 0%float.
Proof.
  split; [simpl; lia|].
  apply (signalEnergy_silent [0; -0; 0]%float); [simpl; lia|simpl; lia|].
  repeat constructor; (left; reflexivity) || (right; reflexivity).
Defined.

Lemma signalEnergy_nan_witness :
  [1; nan; 2]%float !! 1 = Some nan ∧ signalEnergy [1; nan; 2]%float = nan.
Proof.
  split; [reflexivity|]. exact (signalEnergy_nan [1; nan; 2]%float 1 eq_refl).
Defined.

Lemma zeroCrossingRate_one_sign_witness :
  2 <= length [1; 0; 2.5]%float ∧ zeroCrossingRate [1; 0; 2.5]%float = 0%float.
Proof.
  split; [simpl; lia|].
  apply (zeroCrossingRate_one_sign [1; 0; 2.5]%float); [simpl; lia|simpl; lia|].
  left. repeat constructor.
Defined.

(** * Further properties of [AudioProcessor] *)

Section FramerFacts.

Context (this : AudioProcessor).

(** X12.  Consecutive frames of a waveform that has samples overlap
    consistently: where frame [k + 1] still lies inside frame [k], its
    sample [j] is sample [j + frameStep] of frame [k]. *)
Theorem frames_overlap (signal : Tensor1D) fuel :
  0 < frameStep this -> 0 < length signal -> length signal < fuel ->
  exists frames,
    frame this fuel signal = Return frames
    ∧ forall k row next j,
        frames !! k = Some row -> frames !! S k = Some next ->
        j + frameStep this < frameLength this ->
        next !! j = row !! (j + frameStep this).
Proof.
  intros Hstep Hpos Hfuel. eexists. split; [apply frame_closed_form; assumption|].
  intros k row next j Hrow Hnext Hj.
  rewrite list_lookup_fmap in Hrow, Hnext.
  destruct (seq 0 _ !! k) as [i|] eqn:Ei; [|discriminate].
  destruct (seq 0 _ !! S k) as [i'|] eqn:Ei'; [|discriminate].
  apply lookup_seq in Ei as [-> _]. apply lookup_seq in Ei' as [-> _].
  simpl in Hrow, Hnext. injection Hrow as <-. injection Hnext as <-.
  rewrite !lookup_frame_at, !decide_True by lia.
  do 3 f_equal. lia.
Qed.

(** X13.  When the step is at most the frame length no sample of a
    waveform that has samples is lost: sample [i] of the waveform is sample
    [i mod frameStep] of frame [i / frameStep]. *)
Theorem frames_cover_signal (signal : Tensor1D) fuel :
  0 < frameStep this -> frameStep this <= frameLength this ->
  0 < length signal -> length signal < fuel ->
  exists frames,
    frame this fuel signal = Return frames
    ∧ forall i x, signal !! i = Some x ->
        exists row, frames !! (i / frameStep this) = Some row
                    ∧ row !! (i mod frameStep this) = Some x.
Proof.
  intros Hstep Hle Hpos Hfuel. eexists. split; [apply frame_closed_form; assumption|].
  intros i x Hi. apply lookup_lt_Some in Hi as Hlt.
  pose proof (Nat.div_mod_eq i (frameStep this)) as Hdm.
  pose proof (Nat.mod_upper_bound i (frameStep this) ltac:(lia)) as Hmod.
  assert (Hk : i / frameStep this < ceil_div (length signal) (frameStep this))
    by (apply ceil_div_lt; [assumption|]; lia).
  eexists. split.
  - rewrite list_lookup_fmap, lookup_seq_lt by exact Hk. reflexivity.
  - rewrite lookup_frame_at, decide_True by lia. simpl.
    replace (i / frameStep this * frameStep this + i mod frameStep this) with i by lia.
    rewrite Hi. reflexivity.
Qed.

End FramerFacts.

Lemma frames_overlap_witness :
  0 < frameStep new_AudioProcessor ∧ 0 < length (replicate 1000 1%float) ∧ 1000 < 1001
  ∧ exists frames, frame new_AudioProcessor 1001 (replicate 1000 1%float) = Return frames.
Proof.
  split; [vm_compute; lia|]. split; [vm_compute; lia|]. split; [lia|].
  destruct (frames_overlap new_AudioProcessor (replicate 1000 1%float) 1001
              ltac:(vm_compute; lia) ltac:(rewrite length_replicate; lia)
              ltac:(rewrite length_replicate; lia))
    as (frames & Hframes & _).
  exists frames. exact Hframes.
Defined.

Lemma frames_cover_signal_witness :
  0 < frameStep new_AudioProcessor
  ∧ frameStep new_AudioProcessor <= frameLength new_AudioProcessor
  ∧ 0 < length (replicate 1000 1%float)
  ∧ exists frames, frame new_AudioProcessor 1001 (replicate 1000 1%float) = Return frames.
Proof.
  split; [vm_compute; lia|]. split; [vm_compute; lia|]. split; [vm_compute; lia|].
  destruct (frames_cover_signal new_AudioProcessor (replicate 1000 1%float) 1001
              ltac:(vm_compute; lia) ltac:(vm_compute; lia)
              ltac:(rewrite length_replicate; lia)
              ltac:(rewrite length_replicate; lia))
    as (frames & Hframes & _).
  exists frames. exact Hframes.
Defined.

Section FeatureMatrix.

Context (B : Backend) (this : AudioProcessor).

(** X14.  For a recording that has samples the feature matrix has one row
    per frame, [ceil (L / frameStep)] of them, and [numCoeffs] coefficients
    in every row (20 for the class), whatever the batch size, provided
    [numCoeffs] columns exist ([numCoeffs <= frameLength / 2 + 1]). *)
Theorem extractFeatures_shape b (audioData : Float32Array) fuel :
  0 < frameStep this -> 0 < b -> numCoeffs this <= frameLength this / 2 + 1 ->
  0 < length audioData -> length audioData < fuel ->
  exists lfcc,
    extractFeatures B (with_batchSize this b) fuel audioData = Return lfcc
    ∧ length lfcc = ceil_div (length audioData) (frameStep this)
    ∧ Forall (fun row => length row = numCoeffs this) lfcc.
Proof.
  intros Hstep Hb Hcoeffs Hpos Hfuel. eexists.
  split; [apply extractFeatures_rowwise; assumption|].
  split.
  - rewrite length_lfcc_with, length_fmap, length_seq. reflexivity.
  - eapply Forall_impl; [apply Forall_lfcc_with|]. intros row Hrow. simpl in Hrow.
    rewrite Hrow. unfold bins. rewrite Nat.min_id. lia.
Qed.

End FeatureMatrix.

Lemma extractFeatures_shape_witness :
  0 < frameStep new_AudioProcessor
  ∧ numCoeffs new_AudioProcessor <= frameLength new_AudioProcessor / 2 + 1
  ∧ exists lfcc,
      extractFeatures Sample.backend new_AudioProcessor 1001 (replicate 1000 1%float)
      = Return lfcc
      ∧ length lfcc = 7
      ∧ Forall (fun row => length row = 20) lfcc.
Proof.
  split; [vm_compute; lia|]. split; [vm_compute; lia|].
  destruct (extractFeatures_shape Sample.backend new_AudioProcessor 32
              (replicate 1000 1%float) 1001
              ltac:(vm_compute; lia) ltac:(lia) ltac:(vm_compute; lia)
              ltac:(rewrite length_replicate; lia)
              ltac:(rewrite length_replicate; lia))
    as (lfcc & Hrun & Hrows & Hcols).
  exists lfcc. split; [exact Hrun|]. split; [|exact Hcols].
  rewrite Hrows, length_replicate. reflexivity.
Defined.

Section Batches.

Context (B : Backend) (this : AudioProcessor).

Lemma batch_loop_batches b (frames : Tensor2D) : forall todo fuel q acc,
  0 < b ->
  todo = ceil_div (length frames) b - q ->
  q <= ceil_div (length frames) b ->
  todo < fuel ->
  batch_loop B (with_batchSize this b) fuel frames (q * b) acc
  = Return (acc ++ ((fun q' => lfcc_rows B this
                                 (tf.slice_rows frames (q' * b)
                                    (Nat.min b (length frames - q' * b))))
                    <$> seq q todo)).
Proof.
  induction todo as [|todo IH]; intros fuel q acc Hb Htodo Hq Hfuel;
    (destruct fuel as [|fuel]; [lia|]); cbn [batch_loop];
    unfold tf.shape0; cbn [batchSize with_batchSize].
  - assert (Hstop : ~ q * b < length frames)
      by (rewrite <- ceil_div_lt by assumption; lia).
    destruct (Nat.ltb_spec (q * b) (length frames)); [lia|].
    simpl. rewrite app_nil_r. reflexivity.
  - assert (Hgo : q * b < length frames)
      by (rewrite <- ceil_div_lt by assumption; lia).
    destruct (Nat.ltb_spec (q * b) (length frames)); [|lia].
    change (computeLFCC B (with_batchSize this b)) with (computeLFCC B this).
    rewrite computeLFCC_nonempty, bind_Return.
    + replace (q * b + b) with (S q * b) by (simpl; lia).
      rewrite (IH fuel (S q)) by (assumption || lia).
      rewrite <- app_assoc. reflexivity.
    + intros Hnil. apply (f_equal length) in Hnil. unfold tf.slice_rows in Hnil.
      rewrite length_take, length_drop in Hnil. simpl in Hnil. lia.
Qed.

(** X15.  The loop of [extractFeatures] hands [computeLFCC] the frames in
    [ceil (numFrames / batchSize)] batches; no batch is empty and none has
    more than [batchSize] frames. *)
Theorem batches_are_bounded b (frames : Tensor2D) fuel :
  0 < b -> length frames < fuel ->
  exists lfccFeatures,
    batch_loop B (with_batchSize this b) fuel frames 0 [] = Return lfccFeatures
    ∧ length lfccFeatures = ceil_div (length frames) b
    ∧ Forall (fun batchLFCC => 0 < length batchLFCC <= b) lfccFeatures.
Proof.
  intros Hb Hfuel. eexists. split.
  - pose proof (batch_loop_batches b frames (ceil_div (length frames) b) fuel 0 [] Hb
                  ltac:(lia) ltac:(lia)) as Hloop.
    simpl (0 * _) in Hloop. apply Hloop.
    pose proof (ceil_div_le (length frames) b Hb). lia.
  - simpl app. split; [rewrite length_fmap, length_seq; reflexivity|].
    apply Forall_fmap, Forall_forall. intros q Hq. simpl.
    apply elem_of_seq in Hq as [_ Hq]. simpl in Hq.
    apply ceil_div_lt in Hq; [|assumption].
    unfold lfcc_rows. rewrite length_lfcc_with. unfold tf.slice_rows.
    rewrite length_take, length_drop. lia.
Qed.

End Batches.

Lemma batches_are_bounded_witness :
  0 < 32 ∧ length (replicate 70 (replicate 400 1%float)) < 71
  ∧ exists lfccFeatures,
      batch_loop Sample.backend new_AudioProcessor 71
        (replicate 70 (replicate 400 1%float)) 0 [] = Return lfccFeatures
      ∧ length lfccFeatures = 3.
Proof.
  split; [lia|]. split; [rewrite length_replicate; lia|].
  destruct (batches_are_bounded Sample.backend new_AudioProcessor 32
              (replicate 70 (replicate 400 1%float)) 71
              ltac:(lia) ltac:(rewrite length_replicate; lia))
    as (lfccFeatures & Hrun & Hlen & _).
  exists lfccFeatures. split; [exact Hrun|].
  rewrite Hlen, length_replicate. reflexivity.
Defined.

(** ** Symmetries of energy and zero crossings *)

Lemma for_range_ext {S : Type} lo count (body body' : nat -> S -> S) s :
  (forall i s, body i s = body' i s) ->
  for_range lo count body s = for_range lo count body' s.
Proof.
  intros H. induction count as [|count IH]; [reflexivity|].
  rewrite !for_range_S, IH. apply H.
Qed.

Lemma square_opp x : (- x * - x)%float = (x * x)%float.
Proof.
  apply Prim2SF_inj. rewrite !mul_spec, !opp_spec. unfold SF64mul.
  destruct (Prim2SF x) as [[]|[]| |[] m e]; reflexivity.
Qed.

(** X16.  Flipping the sign of every sample does not change the energy. *)
Theorem signalEnergy_negated (signal : Float32Array) :
  signalEnergy (opp <$> signal) = signalEnergy signal.
Proof.
  unfold signalEnergy. cbv zeta. rewrite length_fmap. f_equal.
  apply for_range_ext. intros i energy. f_equal. unfold get.
  rewrite list_lookup_fmap. destruct (signal !! i) as [x|]; simpl; [|reflexivity].
  apply square_opp.
Qed.

(** The tests of the loop of [zeroCrossingRate], in loop order, and the
    counter they drive. *)
Definition crossing_tests (signal : Float32Array) : list bool :=
  (fun i => crosses (ToNumber (get signal i)) (ToNumber (get signal (i - 1))))
  <$> seq 1 (length signal - 1).

Definition count_up (tests : list bool) (start : float) : float :=
  fold_left (fun crossings (t : bool) => if t then (crossings + 1)%float else crossings)
    tests start.

Lemma fold_left_fmap {A B C : Type} (f : A -> B -> A) (g : C -> B) l a :
  fold_left f (g <$> l) a = fold_left (fun a x => f a (g x)) l a.
Proof. revert a. induction l as [|x l IH]; intros a; [reflexivity|]. simpl. apply IH. Qed.

Lemma zeroCrossingRate_count (signal : Float32Array) :
  zeroCrossingRate signal
  = (count_up (crossing_tests signal) 0 / of_Z (Z.of_nat (length signal) - 1))%float.
Proof.
  unfold zeroCrossingRate, count_up, crossing_tests, for_range. cbv zeta.
  rewrite fold_left_fmap. reflexivity.
Qed.

Lemma count_up_comm (t : bool) tests c :
  count_up tests (if t then (c + 1)%float else c)
  = if t then (count_up tests c + 1)%float else count_up tests c.
Proof.
  destruct t; [|reflexivity]. revert c.
  induction tests as [|t' tests IH]; intros c; [reflexivity|].
  unfold count_up in *. simpl. destruct t'; [|apply IH].
  rewrite <- IH. reflexivity.
Qed.

Lemma count_up_reverse tests c : count_up (reverse tests) c = count_up tests c.
Proof.
  revert c. induction tests as [|t tests IH]; intros c; [reflexivity|].
  rewrite reverse_cons. unfold count_up at 1. rewrite fold_left_app. simpl.
  fold (count_up (reverse tests) c). rewrite IH, <- count_up_comm. reflexivity.
Qed.

Lemma crosses_sym a b : crosses a b = crosses b a.
Proof.
  unfold crosses.
  destruct (0 <=? a)%float, (a <? 0)%float, (0 <=? b)%float, (b <? 0)%float; reflexivity.
Qed.

Lemma crossing_tests_reverse (signal : Float32Array) :
  crossing_tests (reverse signal) = reverse (crossing_tests signal).
Proof.
  apply list_eq. intros j. unfold crossing_tests. rewrite length_reverse.
  destruct (decide (j < length signal - 1)) as [Hj|Hj].
  - rewrite reverse_lookup by (rewrite length_fmap, length_seq; exact Hj).
    rewrite length_fmap, length_seq, !list_lookup_fmap, !lookup_seq_lt by lia.
    simpl. unfold get. rewrite !reverse_lookup by lia. rewrite crosses_sym.
    do 3 f_equal; f_equal; lia.
  - rewrite !lookup_ge_None_2; [reflexivity| |].
    + rewrite length_reverse, length_fmap, length_seq. lia.
    + rewrite length_fmap, length_seq. lia.
Qed.

(** X17.  Reading the signal backwards does not change its zero-crossing
    rate. *)
Theorem zeroCrossingRate_reversed (signal : Float32Array) :
  zeroCrossingRate (reverse signal) = zeroCrossingRate signal.
Proof.
  rewrite !zeroCrossingRate_count, crossing_tests_reverse, count_up_reverse, length_reverse.
  reflexivity.
Qed.
